(** * HttpClient (src/client.ts): a shallow embedding and its properties

    The client is a thin facade over an HTTP transport (Axios) and a push
    stream library (RxJS).  The embedding follows the source function by
    function:

    - JavaScript values are an inductive type; an object is the list of its
      own enumerable properties in enumeration order;
    - code that may throw evaluates to a [completion];
    - code with side effects (console output, the transport call, listener
      invocations) evaluates in the [Eff] monad, which records the effects
      in order and stops at the first exception;
    - a stream is the list of notifications one subscription delivers;
    - what the sources at hand do not settle is a parameter: the members a
      value inherits from the prototypes of the runtime, and whether the
      bus's [clear] works when called without its receiver.

    The modules [./const], [./enum], [./response], [./pubsub] and [./type]
    are imported by [client.ts] but their sources are not available; what
    the client uses of them is either a section parameter or a definition
    marked "Modelled from the spec". *)

From Stdlib Require Import ZArith String Ascii List Bool Lia DecimalString.
Import ListNotations.

Set Warnings "-register-all".

Local Open Scope string_scope.
Local Open Scope list_scope.

(** ** JavaScript values *)

(** Modelled from the spec: the classes [HttpUploadProgressEvent],
    [HttpDownloadProgressEvent] and [HttpResponseError] of [./response],
    missing from the sources, are the last three constructors: a progress
    event wraps the transport's progress information and a response error
    carries the original error or response and the options of the request.

    Numbers are restricted to integers (HTTP statuses, business codes)
    that print in decimal notation, of magnitude below 10^21: [NaN],
    infinities, fractions, the negative zero and the numbers printed with
    an exponent are not represented.
    Strings are byte strings, a JavaScript string being represented by its
    UTF-8 encoding.  Objects carry no identity. *)
Inductive value : Type :=
| VUndefined
| VNull
| VBool (b : bool)
| VNum (n : Z)
| VStr (s : string)
| VArr (items : list value)
| VObj (props : list (string * value))
| VFun (id : nat)                                (* an opaque function *)
| JsError (message : string)                     (* [new Error(message)] *)
| HttpUploadProgressEvent (progressEvent : value)
| HttpDownloadProgressEvent (progressEvent : value)
| HttpResponseError (error options : value).

(** The result of evaluating code that may throw. *)
Inductive completion (A : Type) : Type :=
| Normal (a : A)
| Throw (e : value).
Arguments Normal {A} a.
Arguments Throw {A} e.

(** [!!v] *)
Definition truthy (v : value) : bool :=
  match v with
  | VUndefined | VNull => false
  | VBool b => b
  | VNum n => negb (n =? 0)%Z
  | VStr s => negb (s =? "")
  | _ => true
  end.

(** [typeof v] *)
Definition typeof (v : value) : string :=
  match v with
  | VUndefined => "undefined"
  | VBool _ => "boolean"
  | VNum _ => "number"
  | VStr _ => "string"
  | VFun _ => "function"
  | _ => "object"
  end.

(** [a === b].  Primitives compare by value and functions by identity.
    Two objects are never identical here: the model gives objects no
    identity, and the one comparison the client makes ([indexOf] in
    [_handleJsonResponse]) is between a value read from a response body and
    the configured success codes. *)
Definition strict_eq (a b : value) : bool :=
  match a, b with
  | VUndefined, VUndefined => true
  | VNull, VNull => true
  | VBool x, VBool y => Bool.eqb x y
  | VNum x, VNum y => (x =? y)%Z
  | VStr x, VStr y => (x =? y)
  | VFun x, VFun y => (x =? y)%nat
  | _, _ => false
  end.

Definition decimal (n : nat) : string := NilZero.string_of_uint (Nat.to_uint n).

(** [String(v)].  The string forms of functions and of the instances of the
    classes of [./response] are not in the sources; they are given the
    default object form and no property below depends on them. *)
Fixpoint ToString (v : value) : string :=
  match v with
  | VUndefined => "undefined"
  | VNull => "null"
  | VBool true => "true"
  | VBool false => "false"
  | VNum n => NilZero.string_of_int (Z.to_int n)
  | VStr s => s
  | VArr items =>
      String.concat ","
        (map (fun x => match x with
                       | VUndefined | VNull => ""
                       | _ => ToString x
                       end) items)
  | JsError "" => "Error"
  | JsError message => "Error: " ++ message
  | _ => "[object Object]"
  end.

(** A property key that is a canonical array index. *)
Definition array_index (key : string) : option nat :=
  match NilZero.uint_of_string key with
  | Some u => let n := Nat.of_uint u in
              if decimal n =? key then Some n else None
  | None => None
  end.

(** First binding of [key] in a property list. *)
Fixpoint lookup (key : string) (props : list (string * value)) : value :=
  match props with
  | [] => VUndefined
  | (k, v) :: rest => if k =? key then v else lookup key rest
  end.

Fixpoint chars (s : string) : list value :=
  match s with
  | EmptyString => []
  | String c rest => VStr (String c EmptyString) :: chars rest
  end.

(** The indexed elements of an array or a string, as properties. *)
Fixpoint indexed (from : nat) (items : list value) : list (string * value) :=
  match items with
  | [] => []
  | x :: rest => (decimal from, x) :: indexed (S from) rest
  end.

(** The own enumerable properties of a value, in enumeration order. *)
Definition own_props (v : value) : list (string * value) :=
  match v with
  | VObj props => props
  | VArr items => indexed 0 items
  | VStr s => indexed 0 (chars s)
  | _ => []
  end.

(** [Object.keys(v)] *)
Definition Object_keys (v : value) : list string := map fst (own_props v).

(** [o[key]] for a key that names an own property or no property at all,
    on a receiver that is neither [undefined] nor [null].  The client
    reads this way the fixed names [params], [header], [observe], [data],
    ..., which no built-in prototype defines, and in [_convertParam] the
    own keys of [params]; a key computed from data goes through [member]
    below.  The fields of the opaque instances are not known. *)
Definition prop (o : value) (key : string) : value :=
  match o with
  | VObj props => lookup key props
  | VArr items =>
      if key =? "length" then VNum (Z.of_nat (length items))
      else match array_index key with
           | Some i => nth i items VUndefined
           | None => VUndefined
           end
  | VStr s =>
      if key =? "length" then VNum (Z.of_nat (String.length s))
      else match array_index key with
           | Some i => nth i (chars s) VUndefined
           | None => VUndefined
           end
  | _ => VUndefined
  end.

Definition nullish (v : value) : bool :=
  match v with
  | VUndefined | VNull => true
  | _ => false
  end.

(** [o.key]: reading a property of [undefined] or [null] throws a
    [TypeError] (its message is the engine's). *)
Definition TypeError : value := JsError "TypeError".

Definition Get (o : value) (key : string) : completion value :=
  if nullish o then Throw TypeError else Normal (prop o key).

(** Whether [key] names one of the own properties the model holds of [o]. *)
Definition has_own_property (o : value) (key : string) : bool :=
  match o with
  | VObj props => existsb (String.eqb key) (List.map fst props)
  | VArr items =>
      (key =? "length")
      || match array_index key with
         | Some i => (i <? length items)%nat
         | None => false
         end
  | VStr s =>
      (key =? "length")
      || match array_index key with
         | Some i => (i <? String.length s)%nat
         | None => false
         end
  | _ => false
  end.

(** [o[key]] for a computed key, on a receiver that is neither [undefined]
    nor [null]: the own property when there is one, and otherwise what the
    prototype chain of [o] gives for [key] ([undefined] when it has no such
    property either).  The prototypes belong to the runtime:
    [inherited o key] stands for that second lookup. *)
Definition member (inherited : value -> string -> value) (o : value)
  (key : string) : value :=
  if has_own_property o key then prop o key else inherited o key.

(** [target[key] = v] on a property list: an existing key keeps its place
    and a new one comes last.  This is the enumeration order of keys that
    are not canonical array indices; an object enumerates its index-like
    keys first, in ascending order, which the list does not reproduce;
    the client reads the objects it builds this way by key. *)
Fixpoint set_prop (key : string) (v : value) (props : list (string * value))
  : list (string * value) :=
  match props with
  | [] => [(key, v)]
  | (k, x) :: rest =>
      if k =? key then (k, v) :: rest else (k, x) :: set_prop key v rest
  end.

Definition assign (target : list (string * value)) (source : value)
  : list (string * value) :=
  fold_left (fun acc kv => set_prop (fst kv) (snd kv) acc) (own_props source) target.

(** The object literal [{ ...s1, ...s2, ... }]. *)
Definition spread (sources : list value) : value :=
  VObj (fold_left assign sources []).

(** [Array.isArray(v)] *)
Definition Array_isArray (v : value) : bool :=
  match v with VArr _ => true | _ => false end.

(** The elements of an array. *)
Definition array_items (v : value) : list value :=
  match v with VArr items => items | _ => [] end.

(** [items.indexOf(x) !== -1] *)
Definition includes_strict (items : list value) (x : value) : bool :=
  existsb (fun y => strict_eq y x) items.

(** ** [encodeURIComponent] *)

Definition unreserved (c : ascii) : bool :=
  let n := nat_of_ascii c in
  ((48 <=? n)%nat && (n <=? 57)%nat) || ((65 <=? n)%nat && (n <=? 90)%nat)
  || ((97 <=? n)%nat && (n <=? 122)%nat)
  || existsb (Ascii.eqb c) (list_ascii_of_string "-_.!~*'()").

Definition hex_digit (n : nat) : ascii :=
  nth n (list_ascii_of_string "0123456789ABCDEF") "0"%char.

(** Every byte outside the unreserved set becomes [%XX]. *)
Fixpoint encodeURIComponent (s : string) : string :=
  match s with
  | EmptyString => EmptyString
  | String c rest =>
      if unreserved c then String c (encodeURIComponent rest)
      else let n := nat_of_ascii c in
           String "%" (String (hex_digit (n / 16)) (String (hex_digit (n mod 16))
             (encodeURIComponent rest)))
  end.

(** ** Parameter and URL builder *)

Definition valid_methods : list string :=
  ["delete"; "get"; "head"; "options"; "patch"; "post"; "put"; "jsonp"].

Definition _isValidMethod (method : string) : bool :=
  existsb (String.eqb method) valid_methods.

(** The body of the [for ... of] loop of [_convertParam], which pushes one
    pair onto [array] for every key whose value is not [undefined]. *)
Fixpoint convert_loop (params : value) (queryKeys : list string)
  (array : list string) : list string :=
  match queryKeys with
  | [] => array
  | key :: rest =>
      let array' :=
        if negb (typeof (prop params key) =? "undefined")
        then array ++ [encodeURIComponent key ++ "=" ++
                       encodeURIComponent (ToString (prop params key))]%string
        else array in
      convert_loop params rest array'
  end.

Definition _convertParam (params : value) : string :=
  if negb (truthy params) then ""
  else
    let queryKeys := Object_keys params in
    let array := convert_loop params queryKeys [] in
    String.concat "&" array.

(** [/\?$/.test(url)] *)
Fixpoint ends_with_question (url : string) : bool :=
  match url with
  | EmptyString => false
  | String c EmptyString => Ascii.eqb c "?"
  | String _ rest => ends_with_question rest
  end.

(** [params] is [None] when the argument is [undefined]; the parameter's
    default is the empty string. *)
Definition _getUrl (url : string) (params : option string) : string :=
  let params := match params with Some p => p | None => "" end in
  if negb (params =? "")
  then (url ++ (if ends_with_question url then params else "?" ++ params))%string
  else url.

(** ** Exceptions and effects *)

Definition bindC {A B : Type} (m : completion A) (k : A -> completion B)
  : completion B :=
  match m with
  | Normal a => k a
  | Throw e => Throw e
  end.

Notation "'let?' x ':=' m 'in' k" := (bindC m (fun x => k))
  (at level 10, x name, m at level 100, k at level 200).

(** The configuration object handed to [Axios.request].  The three
    callbacks are not fields: what the transport reports through
    [onUploadProgress], [onDownloadProgress] and the returned promise is
    its [exchange] below, and [validateStatus] keeps the configured value
    the closure consults. *)
Record AxiosRequestConfig : Type := {
  method : string;
  url : string;
  baseURL : value;
  data : value;
  headers : value;
  withCredentials : bool;
  responseType : value;
  timeout : value;
  validateStatus : value
}.

Inductive effect : Type :=
| AxiosRequest (config : AxiosRequestConfig)        (* one transport call *)
| ConsoleError (v : value)                          (* [console.error(v)] *)
| Called (handler : nat) (topic err options : value). (* a listener ran *)

(** Effectful code: the effects performed, in order, and how it ended. *)
Definition Eff (A : Type) : Type := (list effect * completion A)%type.

Definition ret {A : Type} (a : A) : Eff A := ([], Normal a).

Definition throw {A : Type} (e : value) : Eff A := ([], Throw e).

Definition perform (x : effect) : Eff unit := ([x], Normal tt).

Definition lift {A : Type} (m : completion A) : Eff A := ([], m).

Definition bind {A B : Type} (m : Eff A) (k : A -> Eff B) : Eff B :=
  match m with
  | (log, Normal a) => let (log', r) := k a in (log ++ log', r)
  | (log, Throw e) => (log, Throw e)
  end.

Notation "x <- m ;; k" := (bind m (fun x => k))
  (at level 61, m at next level, right associativity).
Notation "m ;;; k" := (bind m (fun _ => k))
  (at level 61, right associativity).

(** A function the application passes to [listen].  Its body is the
    application's: the model records that it ran and whether it threw
    ([Some e]) or returned ([None]). *)
Record handler : Type := {
  handler_id : nat;
  handler_throws : value -> value -> value -> option value
}.

Definition call_handler (h : handler) (topic err options : value) : Eff unit :=
  perform (Called (handler_id h) topic err options) ;;;
  match handler_throws h topic err options with
  | Some e => throw e
  | None => ret tt
  end.

(** ** Publish/subscribe bus *)

Module PubSub.

Definition callback : Type := list value -> Eff unit.

(** Modelled from the spec: the class [PubSub] of [./pubsub] is missing.
    The registry maps a topic to its callbacks in registration order; it
    is kept as the list of all registrations, oldest first. *)
Definition t : Type := list (value * callback).

Definition empty : t := [].

(** Modelled from the spec: [on(topic, handler)] of the missing class
    registers a handler under a topic, with no uniqueness constraint. *)
Definition on (topic : value) (cb : callback) (bus : t) : t :=
  bus ++ [(topic, cb)].

(** Modelled from the spec: [emit(topic, ...args)] of the missing class
    invokes the handlers registered under [topic], in registration
    order, synchronously, passing through all arguments; a handler that
    throws propagates to the caller of [emit]; emitting to a topic with
    no handler does nothing. *)
Fixpoint emit (topic : value) (args : list value) (bus : t) : Eff unit :=
  match bus with
  | [] => ret tt
  | (registered, cb) :: rest =>
      if strict_eq registered topic
      then cb args ;;; emit topic args rest
      else emit topic args rest
  end.

(** Modelled from the spec: [clear()] of the missing class removes every
    topic and handler. *)
Definition clear (bus : t) : t := [].

End PubSub.

(** ** The client's state *)

Record HttpClient : Type := {
  _commonHeader : list (string * value);
  _inited : bool;
  _config : value;
  _pubsub : PubSub.t
}.

(** [new HttpClient()] *)
Definition createClient : HttpClient :=
  {| _commonHeader := []; _inited := false; _config := VObj [];
     _pubsub := PubSub.empty |}.

Definition set_pubsub (bus : PubSub.t) (this : HttpClient) : HttpClient :=
  {| _commonHeader := _commonHeader this; _inited := _inited this;
     _config := _config this; _pubsub := bus |}.

(** A parameter with a default value: the default replaces [undefined]. *)
Definition default_arg (v d : value) : value :=
  match v with VUndefined => d | _ => v end.

(** ** Push streams *)

(** What an observer receives: [observer.next(v)], [observer.error(e)],
    [observer.complete()]. *)
Inductive notification : Type :=
| next (v : value)
| error (e : value)
| complete.

Definition stream : Type := list notification.

(** An observable is what subscribing to it does: given the client's state
    at that time, the effects performed and the notifications delivered.
    One run is modelled, that of the first subscription, from subscription
    to termination, with the subscriber never unsubscribing and the
    client's state fixed meanwhile (a listener is a black box that does
    not call back into the client). *)
Definition Observable : Type := HttpClient -> list effect * stream.

Definition subscribe (o : Observable) (this : HttpClient) : list effect * stream :=
  o this.

Module Rx.

(** [new Observable(producer)]: the producer's synchronous part runs at
    subscription; an exception it throws is delivered to the observer as
    the error notification. *)
Definition create (producer : HttpClient -> Eff stream) : Observable :=
  fun this =>
    match producer this with
    | (log, Normal s) => (log, s)
    | (log, Throw e) => (log, [error e])
    end.

(** [of(v)] *)
Definition of_value (v : value) : Observable :=
  fun _ => ([], [next v; complete]).

Fixpoint filter_stream (predicate : value -> bool) (s : stream) : stream :=
  match s with
  | [] => []
  | next v :: rest =>
      if predicate v then next v :: filter_stream predicate rest
      else filter_stream predicate rest
  | error e :: _ => [error e]
  | complete :: _ => [complete]
  end.

(** A projection that throws ends the stream with that error. *)
Fixpoint map_stream (project : value -> completion value) (s : stream) : stream :=
  match s with
  | [] => []
  | next v :: rest =>
      match project v with
      | Normal r => next r :: map_stream project rest
      | Throw e => [error e]
      end
  | error e :: _ => [error e]
  | complete :: _ => [complete]
  end.

(** On the source's error the selector is called and the stream continues
    with the observable it returns; a selector that throws ends the
    stream with that error. *)
Fixpoint catch_stream (selector : value -> Eff Observable) (this : HttpClient)
  (s : stream) : list effect * stream :=
  match s with
  | [] => ([], [])
  | next v :: rest =>
      let (log, out) := catch_stream selector this rest in (log, next v :: out)
  | error e :: _ =>
      match selector e with
      | (log, Normal o) => let (log', out) := o this in (log ++ log', out)
      | (log, Throw e') => (log, [error e'])
      end
  | complete :: _ => ([], [complete])
  end.

Definition filter (predicate : value -> bool) (source : Observable) : Observable :=
  fun this => let (log, s) := source this in (log, filter_stream predicate s).

Definition map (project : value -> completion value) (source : Observable)
  : Observable :=
  fun this => let (log, s) := source this in (log, map_stream project s).

Definition catchError (selector : HttpClient -> value -> Eff Observable)
  (source : Observable) : Observable :=
  fun this =>
    let (log, s) := source this in
    let (log', out) := catch_stream (selector this) this s in
    (log ++ log', out).

End Rx.

(** ** The transport *)

Inductive progress : Type :=
| onUploadProgress (progressEvent : value)
| onDownloadProgress (progressEvent : value).

Inductive settlement : Type :=
| fulfilled (response : value)
| rejected (reason : value)
| unsettled.

(** What the transport does for one call: the progress callbacks it makes,
    in order, and how the returned promise settles, if it does. *)
Record exchange : Type := {
  reported : list progress;
  settled : settlement
}.

(** The value of [this._pubsub.clear], a method read off the bus without
    its receiver: what [listen] returns. *)
Inductive detached : Type :=
| PubSub_clear.

(** ** The client's methods *)

Section Client.

(** What the prototypes of the runtime give for a key a value does not own
    (see [member]). *)
Variable inherited : value -> string -> value.

(** Whether the missing class [PubSub] defines [clear] so that it still
    reaches the bus when called without a receiver (an arrow-function
    property, a bound method); a method of the prototype that works on
    [this] finds none and throws. *)
Variable clear_is_bound : bool.

(** The constants of [./const] and the enum objects of [./enum], whose
    sources are missing, are parameters: an enum object is the list of
    its members, in the order a [for ... in] loop visits them. *)
Variable HTTP_DEFAULT_CONFIG : value.
Variable HTTP_DEFAULT_REQUEST_OPTION : value.
Variable HttpErrorCodeType : list (string * value).
Variable HttpObserveType : list (string * value).

(** [err.status], the status the missing class [HttpResponseError]
    derives from what it wraps (0 for a network-level failure). *)
Variable status : value -> Z.

(** The transport, [Axios.request]. *)
Variable Axios_request : AxiosRequestConfig -> exchange.

Definition HttpErrorCodeType_Server : value := lookup "Server" HttpErrorCodeType.
Definition HttpErrorCodeType_Offline : value := lookup "Offline" HttpErrorCodeType.
Definition HttpErrorCodeType_UnAuth : value := lookup "UnAuth" HttpErrorCodeType.
Definition HttpErrorCodeType_NotFound : value := lookup "NotFound" HttpErrorCodeType.
Definition HttpObserveType_Body : value := lookup "Body" HttpObserveType.
Definition HttpObserveType_Event : value := lookup "Event" HttpObserveType.

Definition _getHeader (this : HttpClient) (header : value) : value :=
  let header := default_arg header (VObj []) in
  spread [VObj (_commonHeader this); header].

(** The notifications the callbacks handed to the transport deliver: one
    per progress report, then the response and the completion when the
    promise is fulfilled, or the wrapped failure when it is rejected. *)
Definition relay (x : exchange) (options : value) : stream :=
  List.map (fun p => match p with
                     | onUploadProgress e => next (HttpUploadProgressEvent e)
                     | onDownloadProgress e => next (HttpDownloadProgressEvent e)
                     end) (reported x)
  ++ match settled x with
     | fulfilled response => [next response; complete]
     | rejected reason => [error (HttpResponseError reason options)]
     | unsettled => []
     end.

(** The producer's synchronous part ends with the call of the transport;
    the cancellation token, used only by the teardown of a subscriber that
    leaves early, is not represented.

    Two limits of the model.  The producer assigns the [url] it captured,
    so a second subscription to the same observable starts from the
    address the first one extended: an observable is modelled for its
    first subscription.  And the [validateStatus] handed to the transport
    is a closure over [this._config.validateStatus], which calls that
    function when it is one and otherwise warns on the console and answers
    [false]; the model keeps the configured value and leaves what the
    transport makes of the answer to its [exchange], the warning not being
    one of the recorded effects. *)
Definition _request (method url : string) (options : value) : Observable :=
  let options := default_arg options (VObj []) in
  Rx.create (fun this =>
    if url =? "" then throw (JsError "the url is required!") else
    if negb (_isValidMethod method)
    then throw (JsError ("method " ++ method ++ " is not valid!")) else
    options_params <- lift (Get options "params") ;;
    let params := if truthy options_params
                  then Some (_convertParam options_params) else None in
    let url := _getUrl url params in
    options_header <- lift (Get options "header") ;;
    let header := _getHeader this options_header in
    let config :=
      {| method := method;
         url := url;
         baseURL := prop options "baseUrl";
         data := prop options "body";
         headers := header;
         withCredentials := truthy (prop options "withCredentials");
         responseType := if truthy (prop options "responseType")
                         then prop options "responseType" else VStr "json";
         timeout := if truthy (prop options "timeout")
                    then prop options "timeout" else VNum 0;
         validateStatus := prop (_config this) "validateStatus" |} in
    perform (AxiosRequest config) ;;;
    ret (relay (Axios_request config) options)).

Definition _handleJsonResponse (json response options : value)
  : completion value :=
  let? responseKey := Get options "responseResultKey" in
  let? successCode := Get options "successCode" in
  let? keyCode := Get responseKey "code" in
  let successCode := if negb (Array_isArray successCode)
                     then VArr [successCode] else successCode in
  if truthy json
     && negb (typeof (member inherited json (ToString keyCode)) =? "undefined")
     && includes_strict (array_items successCode)
          (member inherited json (ToString keyCode))
  then
    let? keyData := Get responseKey "data" in
    Normal (member inherited json (ToString keyData))
  else
    Normal (HttpResponseError response options).

Definition _handleResponseError (this : HttpClient) (err options : value)
  : Eff unit :=
  let status := status err in
  let errorType := VUndefined in
  let errorType := if (status >=? 500)%Z then HttpErrorCodeType_Server else errorType in
  let errorType := if (status =? 0)%Z then HttpErrorCodeType_Offline else errorType in
  let errorType := if (status =? 401)%Z then HttpErrorCodeType_UnAuth else errorType in
  let errorType := if (status =? 404)%Z then HttpErrorCodeType_NotFound else errorType in
  PubSub.emit errorType [err; options] (_pubsub this).

Definition init (config : value) (this : HttpClient) : HttpClient :=
  let config := default_arg config (VObj []) in
  if _inited this then this
  else {| _commonHeader := _commonHeader this;
          _inited := true;
          _config := spread [HTTP_DEFAULT_CONFIG; config];
          _pubsub := _pubsub this |}.

(** Assigning the key [__proto__] goes to the accessor of
    [Object.prototype]: it replaces the prototype of the headers object,
    when the value is an object or [null], and adds no own property.  The
    model keeps no prototypes: what the assignment of another key does
    once the headers object has a replaced prototype (one with a setter or
    a read-only property of that name) is outside it. *)
Definition setCommonHeader (key : string) (v : value) (this : HttpClient)
  : HttpClient :=
  if key =? "__proto__" then this
  else {| _commonHeader := set_prop key v (_commonHeader this);
          _inited := _inited this;
          _config := _config this;
          _pubsub := _pubsub this |}.

(** The closure [(err, options) => handle(type, err, options)]. *)
Definition listener (type : value) (handle : handler) : PubSub.callback :=
  fun args => call_handler handle type (nth 0 args VUndefined) (nth 1 args VUndefined).

(** The [for ... in] loop of [listen]. *)
Fixpoint listen_loop (keys : list string) (handle : handler) (bus : PubSub.t)
  : PubSub.t :=
  match keys with
  | [] => bus
  | key :: rest =>
      let type := lookup key HttpErrorCodeType in
      listen_loop rest handle (PubSub.on type (listener type handle) bus)
  end.

Definition listen (handle : handler) (this : HttpClient)
  : HttpClient * detached :=
  (set_pubsub (listen_loop (List.map fst HttpErrorCodeType) handle (_pubsub this)) this,
   PubSub_clear).

(** Calling the function [listen] returned, on the client as it is then.
    [listen] returns [this._pubsub.clear] as it reads it, without binding
    it to the bus: the call empties the bus when [clear] does not need its
    receiver, and otherwise throws and leaves the bus as it is. *)
Definition unsubscribe (f : detached) (this : HttpClient)
  : completion HttpClient :=
  match f with
  | PubSub_clear =>
      if clear_is_bound
      then Normal (set_pubsub (PubSub.clear (_pubsub this)) this)
      else Throw TypeError
  end.

(** The three stages of the pipeline of [request]. *)
Definition request_filter (options response : value) : bool :=
  if negb (strict_eq (prop options "observe") HttpObserveType_Event)
  then negb (match response with
             | HttpDownloadProgressEvent _ | HttpUploadProgressEvent _ => true
             | _ => false
             end)
  else true.

Definition success (result response : value) : value :=
  VObj [("result", result); ("response", response); ("isSuccess", VBool true)].

(** [interpret] stands for the method [this._handleJsonResponse]. *)
Definition request_map_with (interpret : value -> value -> value -> completion value)
  (options response : value) : completion value :=
  if strict_eq (prop options "observe") HttpObserveType_Body then
    let? data := Get response "data" in
    let result := data in
    if strict_eq (prop options "responseType") (VStr "json")
       && (typeof data =? "object")
    then
      let? result := interpret data response options in
      match result with
      | HttpResponseError _ _ => Throw result
      | _ => Normal (success result response)
      end
    else Normal (success result response)
  else Normal response.

Definition request_map : value -> value -> completion value :=
  request_map_with _handleJsonResponse.

Definition failure (err : value) : value :=
  VObj [("result", VNull); ("response", err); ("isSuccess", VBool false)].

Definition request_catch (options : value) (this : HttpClient) (err : value)
  : Eff Observable :=
  match err with
  | HttpResponseError _ _ => _handleResponseError this err options
  | _ => perform (ConsoleError err)
  end ;;;
  ret (Rx.of_value (failure err)).

Definition request (method url : string) (options : value) (this : HttpClient)
  : completion Observable :=
  let options := default_arg options (VObj []) in
  if negb (_inited this) then Throw (JsError "please call init first") else
  let config := _config this in
  let options := spread [HTTP_DEFAULT_REQUEST_OPTION; config; options] in
  Normal (Rx.catchError (request_catch options)
           (Rx.map (request_map options)
             (Rx.filter (request_filter options)
               (_request method url options)))).

(** Two names for parts of [request]: the options it works with
    (defaults, then the configuration, then the call's own) and the
    stream that reaches its recovery stage. *)
Definition merged (this : HttpClient) (options : value) : value :=
  spread [HTTP_DEFAULT_REQUEST_OPTION; _config this; default_arg options (VObj [])].

Definition upstream (method url : string) (options : value) : Observable :=
  Rx.map (request_map options)
    (Rx.filter (request_filter options) (_request method url options)).

Definition post (url : string) (body options : value) (this : HttpClient)
  : completion Observable :=
  let body := default_arg body (VObj []) in
  let options := default_arg options (VObj []) in
  request "post" url (spread [options; VObj [("body", body)]]) this.

Definition get (url : string) (params options : value) (this : HttpClient)
  : completion Observable :=
  let params := default_arg params (VObj []) in
  let options := default_arg options (VObj []) in
  request "get" url (spread [options; VObj [("params", params)]]) this.

Definition put (url : string) (params options : value) (this : HttpClient)
  : completion Observable :=
  let params := default_arg params (VObj []) in
  let options := default_arg options (VObj []) in
  request "put" url (spread [options; VObj [("params", params)]]) this.

Definition delete (url : string) (params options : value) (this : HttpClient)
  : completion Observable :=
  let params := default_arg params (VObj []) in
  let options := default_arg options (VObj []) in
  request "delete" url (spread [options; VObj [("params", params)]]) this.

End Client.

(** ** The facade as a state machine *)

(** What an application can do with a client.  A request, issued through
    [request] or one of its verbs and subscribed to, leaves the client's
    fields as they are: nothing in [request] or in the pipeline assigns
    them. *)
Inductive call : Type :=
| Call_init (config : value)
| Call_setCommonHeader (key : string) (v : value)
| Call_listen (handle : handler)
| Call_unsubscribe                    (* a function returned by [listen] *)
| Call_request (method url : string) (options : value).

Section Facade.

Variable clear_is_bound : bool.
Variable HTTP_DEFAULT_CONFIG : value.
Variable HttpErrorCodeType : list (string * value).

Definition step (this : HttpClient) (c : call) : HttpClient :=
  match c with
  | Call_init config => init HTTP_DEFAULT_CONFIG config this
  | Call_setCommonHeader key v => setCommonHeader key v this
  | Call_listen handle => fst (listen HttpErrorCodeType handle this)
  | Call_unsubscribe =>
      match unsubscribe clear_is_bound PubSub_clear this with
      | Normal after => after
      | Throw _ => this
      end
  | Call_request _ _ _ => this
  end.

Definition run (calls : list call) (this : HttpClient) : HttpClient :=
  fold_left step calls this.

End Facade.

(** ** Vocabulary of the properties *)

(** One [key=value] pair of a query string. *)
Definition query_pair (kv : string * value) : string :=
  (encodeURIComponent (fst kv) ++ "=" ++ encodeURIComponent (ToString (snd kv)))%string.

Definition defined (v : value) : bool :=
  match v with VUndefined => false | _ => true end.

(** The success codes an options object designates: the elements of
    [successCode] when it is an array, its single value otherwise. *)
Definition success_codes (successCode : value) : list value :=
  match successCode with
  | VArr items => items
  | code => [code]
  end.

Definition is_error (n : notification) : bool :=
  match n with error _ => true | _ => false end.

(** A stream in which nothing follows a terminal notification. *)
Fixpoint well_formed (s : stream) : bool :=
  match s with
  | [] => true
  | next _ :: rest => well_formed rest
  | _ :: rest => match rest with [] => true | _ => false end
  end.

(** A registration under a member of the classification enum. *)
Definition classified (HttpErrorCodeType : list (string * value))
  (registration : value * PubSub.callback) : Prop :=
  In (fst registration) (List.map snd HttpErrorCodeType).

(** A bus none of whose callbacks throws. *)
Definition quiet (bus : PubSub.t) : Prop :=
  Forall (fun registration =>
            forall args, snd (snd registration args) = Normal tt) bus.

(** ** A concrete environment

    The examples below instantiate the parameters of the client.  The
    values are illustrative (the sources of [./const] and [./enum] are
    missing); the theorems hold for every choice. *)
Module Fixture.

Definition HttpErrorCodeType : list (string * value) :=
  [("Server", VStr "server"); ("Offline", VStr "offline");
   ("UnAuth", VStr "unauth"); ("NotFound", VStr "notfound")].

Definition HttpObserveType : list (string * value) :=
  [("Body", VStr "body"); ("Event", VStr "event")].

Definition HTTP_DEFAULT_CONFIG : value := VObj [("timeout", VNum 0)].

Definition HTTP_DEFAULT_REQUEST_OPTION : value :=
  VObj [("observe", VStr "body");
        ("responseType", VStr "json");
        ("responseResultKey", VObj [("code", VStr "code"); ("data", VStr "data")]);
        ("successCode", VNum 0)].

(** The status of the response a failure carries, 0 without one. *)
Definition status (err : value) : Z :=
  match err with
  | HttpResponseError reason _ =>
      match prop reason "status" with
      | VNum n => n
      | _ => 0%Z
      end
  | _ => 0%Z
  end.

(** A transport that reports one upload and one download tick and
    answers with a successful body. *)
Definition online (_ : AxiosRequestConfig) : exchange :=
  {| reported := [onUploadProgress (VNum 10); onDownloadProgress (VNum 20)];
     settled := fulfilled
       (VObj [("status", VNum 200);
              ("data", VObj [("code", VNum 0); ("data", VObj [("v", VNum 1)])])]) |}.

(** A transport without network. *)
Definition offline (_ : AxiosRequestConfig) : exchange :=
  {| reported := [];
     settled := rejected (VObj [("message", VStr "Network Error")]) |}.

Definition recorder : handler :=
  {| handler_id := 1; handler_throws := fun _ _ _ => None |}.

Definition faulty : handler :=
  {| handler_id := 2; handler_throws := fun _ _ _ => Some (JsError "listener failed") |}.

Definition client : HttpClient :=
  init HTTP_DEFAULT_CONFIG VUndefined createClient.

Definition client_recording : HttpClient :=
  fst (listen HttpErrorCodeType recorder client).

Definition client_faulty : HttpClient :=
  fst (listen HttpErrorCodeType faulty client).

(** A runtime whose objects and arrays inherit the methods of
    [Object.prototype], as opaque functions, and nothing more. *)
Definition Object_prototype : list (string * value) :=
  [("constructor", VFun 100); ("hasOwnProperty", VFun 101);
   ("isPrototypeOf", VFun 102); ("propertyIsEnumerable", VFun 103);
   ("toLocaleString", VFun 104); ("toString", VFun 105);
   ("valueOf", VFun 106)].

Definition inherited (o : value) (key : string) : value :=
  match o with
  | VObj _ | VArr _ => lookup key Object_prototype
  | _ => VUndefined
  end.

Definition request (transport : AxiosRequestConfig -> exchange) :=
  request inherited HTTP_DEFAULT_REQUEST_OPTION HttpErrorCodeType HttpObserveType
    status transport.

End Fixture.

(** ** Vocabulary of the further properties *)

(** [key in object], for the own properties of an object. *)
Definition has_own (key : string) (props : list (string * value)) : bool :=
  existsb (String.eqb key) (List.map fst props).

(** A call that leaves the headers object its prototype: any call but
    [setCommonHeader("__proto__", ...)]. *)
Definition keeps_prototype (c : call) : bool :=
  match c with
  | Call_setCommonHeader key _ => negb (key =? "__proto__")
  | _ => true
  end.

(** [v instanceof HttpUploadProgressEvent || v instanceof
    HttpDownloadProgressEvent] *)
Definition is_progress (v : value) : bool :=
  match v with
  | HttpUploadProgressEvent _ | HttpDownloadProgressEvent _ => true
  | _ => false
  end.

(** An object [{result, response, isSuccess}] with a boolean flag. *)
Definition is_result (v : value) : bool :=
  match v with
  | VObj [(k1, _); (k2, _); (k3, VBool _)] =>
      (k1 =? "result") && (k2 =? "response") && (k3 =? "isSuccess")
  | _ => false
  end.

Definition is_terminal (n : notification) : bool :=
  match n with next _ => false | _ => true end.

(** The number of transport calls among the effects of a run. *)
Fixpoint count_requests (log : list effect) : nat :=
  match log with
  | [] => 0
  | AxiosRequest _ :: rest => S (count_requests rest)
  | _ :: rest => count_requests rest
  end.

(** The number of occurrences of a character in a string. *)
Fixpoint count_char (c : ascii) (s : string) : nat :=
  match s with
  | EmptyString => 0
  | String c' rest =>
      (if Ascii.eqb c' c then 1 else 0) + count_char c rest
  end.

(** A bus whose callbacks are all closures made by [listen]. *)
Definition listening (bus : PubSub.t) : Prop :=
  Forall (fun registration =>
            exists type handle, snd registration = listener type handle) bus.

(** The event object the executor makes of a progress report. *)
Definition progress_event (p : progress) : value :=
  match p with
  | onUploadProgress e => HttpUploadProgressEvent e
  | onDownloadProgress e => HttpDownloadProgressEvent e
  end.

(** * Properties *)

(** ** Parameter and URL builder *)

Lemma typeof_undefined (v : value) :
  (typeof v =? "undefined") = negb (defined v).
Proof. destruct v; reflexivity. Qed.

Lemma lookup_own (props : list (string * value)) :
  NoDup (List.map fst props) ->
  forall kv, In kv props -> lookup (fst kv) props = snd kv.
Proof.
  induction props as [|[k v] rest IH]; intros Hnd kv Hin.
  - destruct Hin.
  - inversion Hnd as [|? ? Hfresh Hrest]; subst. simpl.
    destruct Hin as [<-|Hin].
    + simpl. now rewrite String.eqb_refl.
    + destruct (String.eqb_spec k (fst kv)) as [Heq|_].
      * exfalso. apply Hfresh. rewrite Heq. now apply in_map.
      * now apply IH.
Qed.

(** The loop only appends to the array it is given. *)
Lemma convert_loop_app (params : value) (keys : list string) :
  forall array,
    convert_loop params keys array = array ++ convert_loop params keys [].
Proof.
  induction keys as [|key rest IH]; intros array; simpl.
  - now rewrite app_nil_r.
  - destruct (negb (typeof (prop params key) =? "undefined")).
    + rewrite IH, (IH [_]). now rewrite app_assoc.
    + apply IH.
Qed.

Lemma convert_loop_pairs (props entries : list (string * value)) :
  (forall kv, In kv entries -> lookup (fst kv) props = snd kv) ->
  convert_loop (VObj props) (List.map fst entries) []
  = List.map query_pair (List.filter (fun kv => defined (snd kv)) entries).
Proof.
  induction entries as [|[k v] rest IH]; intros Hown; simpl.
  - reflexivity.
  - pose proof (Hown (k, v) (or_introl eq_refl)) as Hk. simpl in Hk.
    rewrite Hk, typeof_undefined, negb_involutive.
    destruct (defined v); simpl.
    + rewrite convert_loop_app. simpl. unfold query_pair at 1. simpl.
      f_equal. apply IH. intros kv Hin. apply Hown. now right.
    + apply IH. intros kv Hin. apply Hown. now right.
Qed.

Lemma remove_absent_key (props : list (string * value)) (key : string) :
  ~ In key (List.map fst props) ->
  List.filter (fun kv => negb (fst kv =? key)) props = props.
Proof.
  induction props as [|[k v] rest IH]; intros Hfresh; simpl; [reflexivity|].
  destruct (String.eqb_spec k key) as [->|_]; simpl.
  - exfalso. apply Hfresh. now left.
  - f_equal. apply IH. intros Hin. apply Hfresh. now right.
Qed.

Lemma NoDup_keys_filter (f : string * value -> bool) (props : list (string * value)) :
  NoDup (List.map fst props) -> NoDup (List.map fst (List.filter f props)).
Proof.
  induction props as [|[k v] rest IH]; intros Hnd; simpl; [constructor|].
  inversion Hnd as [|? ? Hfresh Hrest]; subst.
  destruct (f (k, v)); simpl; [|now apply IH].
  constructor; [|now apply IH].
  intros Hk. apply Hfresh. apply in_map_iff in Hk as [kv [Hfst Hkv]].
  apply filter_In in Hkv as [Hkv _]. apply in_map_iff. now exists kv.
Qed.

Lemma drop_undefined_key (props : list (string * value)) (key : string) :
  NoDup (List.map fst props) ->
  In (key, VUndefined) props ->
  List.filter (fun kv => defined (snd kv))
    (List.filter (fun kv => negb (fst kv =? key)) props)
  = List.filter (fun kv => defined (snd kv)) props.
Proof.
  induction props as [|[k v] rest IH]; intros Hnd Hin; simpl; [reflexivity|].
  inversion Hnd as [|? ? Hfresh Hrest]; subst.
  destruct (String.eqb_spec k key) as [->|Hne]; simpl.
  - assert (v = VUndefined) as ->.
    { destruct Hin as [Heq|Hin]; [congruence|].
      exfalso. apply Hfresh. apply in_map_iff. now exists (key, VUndefined). }
    simpl. now rewrite remove_absent_key.
  - destruct Hin as [Heq|Hin]; [congruence|].
    now rewrite (IH Hrest Hin).
Qed.

(** C8. For a flat mapping (an object whose keys are distinct, given by its
    properties in enumeration order), [_convertParam] yields the pairs
    [key=value] of the properties whose value is not [undefined], key and
    value percent-encoded separately, joined by [&]; a property whose value
    is [undefined] contributes nothing (the result is that of the mapping
    without it); the empty mapping and [undefined] yield the empty string;
    and [{a: 1, b: undefined}] yields ["a=1"]. *)
Theorem convertParam_query_string :
  (forall props : list (string * value),
      NoDup (List.map fst props) ->
      _convertParam (VObj props)
      = String.concat "&"
          (List.map query_pair (List.filter (fun kv => defined (snd kv)) props)))
  /\ (forall props key,
         NoDup (List.map fst props) ->
         In (key, VUndefined) props ->
         _convertParam (VObj props)
         = _convertParam (VObj (List.filter (fun kv => negb (fst kv =? key)) props)))
  /\ _convertParam (VObj []) = ""
  /\ _convertParam VUndefined = ""
  /\ _convertParam (VObj [("a", VNum 1); ("b", VUndefined)]) = "a=1".
Proof.
  assert (Hpairs : forall props : list (string * value),
             NoDup (List.map fst props) ->
             _convertParam (VObj props)
             = String.concat "&"
                 (List.map query_pair
                    (List.filter (fun kv => defined (snd kv)) props))).
  { intros props Hnd. unfold _convertParam, Object_keys. simpl.
    f_equal. apply convert_loop_pairs. now apply lookup_own. }
  split; [exact Hpairs|]. split; [|repeat split].
  intros props key Hnd Hin.
  rewrite (Hpairs _ Hnd), (Hpairs _ (NoDup_keys_filter _ _ Hnd)).
  now rewrite drop_undefined_key.
Qed.

Lemma convertParam_query_string_witness :
  _convertParam (VObj [("q", VStr "a b"); ("skip", VUndefined); ("n", VNum 2)])
  = "q=a%20b&n=2"
  /\ _convertParam (VObj [("q", VStr "a b"); ("skip", VUndefined); ("n", VNum 2)])
     = _convertParam (VObj [("q", VStr "a b"); ("n", VNum 2)]).
Proof.
  assert (Hnd : NoDup (List.map fst
            [("q", VStr "a b"); ("skip", VUndefined); ("n", VNum 2)])).
  { simpl. repeat constructor; simpl; intuition discriminate. }
  split.
  - rewrite (proj1 convertParam_query_string _ Hnd). reflexivity.
  - rewrite (proj1 (proj2 convertParam_query_string) _ "skip" Hnd).
    + reflexivity.
    + simpl. auto.
Defined.

Lemma ends_with_question_app (prefix : string) :
  ends_with_question (prefix ++ "?") = true.
Proof.
  induction prefix as [|c rest IH]; simpl; [reflexivity|].
  destruct (rest ++ "?")%string eqn:Happ; [|exact IH].
  destruct rest; discriminate.
Qed.

Lemma ends_with_question_inv (url : string) :
  ends_with_question url = true -> exists prefix, url = (prefix ++ "?")%string.
Proof.
  induction url as [|c rest IH]; simpl; [discriminate|].
  destruct rest as [|c' rest'].
  - intros Hc. apply Ascii.eqb_eq in Hc as ->. now exists "".
  - intros Hrest. destruct (IH Hrest) as [prefix ->].
    now exists (String c prefix).
Qed.

(** C9. [_getUrl] returns the url unchanged when the query string is empty
    (or absent); when the query string is not empty it appends it directly
    to a url that ends in [?] and puts a [?] between the two otherwise; the
    spec's examples evaluate as stated. *)
Theorem getUrl_appends_query :
  (forall url, _getUrl url (Some "") = url /\ _getUrl url None = url)
  /\ (forall prefix query,
         query <> "" ->
         _getUrl (prefix ++ "?") (Some query) = (prefix ++ "?" ++ query)%string)
  /\ (forall url query,
         query <> "" ->
         (forall prefix, url <> (prefix ++ "?")%string) ->
         _getUrl url (Some query) = (url ++ "?" ++ query)%string)
  /\ _getUrl "https://x/y?" (Some "a=1") = "https://x/y?a=1"
  /\ _getUrl "https://x/y" (Some "a=1") = "https://x/y?a=1"
  /\ _getUrl "https://x/y" (Some "") = "https://x/y".
Proof.
  split; [now intros url|]. split; [|split; [|repeat split]].
  - intros prefix query Hquery. unfold _getUrl.
    apply String.eqb_neq in Hquery. rewrite Hquery. simpl.
    rewrite ends_with_question_app.
    induction prefix as [|c rest IH]; simpl; [reflexivity|].
    now rewrite IH.
  - intros url query Hquery Hend. unfold _getUrl.
    apply String.eqb_neq in Hquery. rewrite Hquery. simpl.
    destruct (ends_with_question url) eqn:Hq; [|reflexivity].
    destruct (ends_with_question_inv _ Hq) as [prefix ->].
    now destruct (Hend prefix).
Qed.

Lemma getUrl_appends_query_witness :
  _getUrl ("/api/items" ++ "?") (Some "page=2") = "/api/items?page=2"
  /\ _getUrl "/api/items" (Some "page=2") = "/api/items?page=2".
Proof.
  split.
  - apply (proj1 (proj2 getUrl_appends_query) "/api/items" "page=2").
    discriminate.
  - apply (proj1 (proj2 (proj2 getUrl_appends_query)) "/api/items" "page=2").
    + discriminate.
    + intros prefix Heq.
      assert (Hq : ends_with_question "/api/items" = true)
        by (rewrite Heq; apply ends_with_question_app).
      discriminate Hq.
Defined.

(** ** Object spread *)

Lemma set_prop_lookup (key k : string) (v : value) (props : list (string * value)) :
  lookup key (set_prop k v props) = if k =? key then v else lookup key props.
Proof.
  induction props as [|[k' x] rest IH]; simpl; [reflexivity|].
  destruct (String.eqb_spec k' k) as [->|Hne]; simpl.
  - now destruct (k =? key).
  - rewrite IH. destruct (String.eqb_spec k' key) as [->|_]; [|reflexivity].
    apply String.eqb_neq in Hne. rewrite String.eqb_sym in Hne. now rewrite Hne.
Qed.

(** Copying the properties of an object over a target: its keys take its
    values and the other keys keep the target's. *)
Lemma assign_lookup (key : string) (props : list (string * value)) :
  NoDup (List.map fst props) ->
  forall target,
    lookup key (assign target (VObj props))
    = if existsb (String.eqb key) (List.map fst props)
      then lookup key props else lookup key target.
Proof.
  unfold assign. simpl.
  induction props as [|[k v] rest IH]; intros Hnd target; simpl; [reflexivity|].
  inversion Hnd as [|? ? Hfresh Hrest]; subst.
  rewrite (IH Hrest), set_prop_lookup, (String.eqb_sym key k).
  destruct (String.eqb_spec k key) as [->|_]; simpl; [|reflexivity].
  destruct (existsb (String.eqb key) (List.map fst rest)) eqn:Hin; [|reflexivity].
  apply existsb_exists in Hin as [k' [Hin Heq]].
  apply String.eqb_eq in Heq. subst k'. contradiction.
Qed.

(** The options of the call have the highest precedence in [request]. *)
Lemma merged_own_option (defaults : value) (this : HttpClient)
  (key : string) (props : list (string * value)) :
  NoDup (List.map fst props) ->
  In key (List.map fst props) ->
  prop (merged defaults this (VObj props)) key = lookup key props.
Proof.
  intros Hnd Hin. unfold merged, spread. simpl.
  rewrite assign_lookup by assumption.
  replace (existsb (String.eqb key) (List.map fst props)) with true; [reflexivity|].
  symmetry. apply existsb_exists. exists key. split; [assumption|apply String.eqb_refl].
Qed.

(** ** Response interpreter *)

Lemma includes_strict_member (items : list value) (x : value) :
  includes_strict items x = true <->
  exists code, In code items /\ strict_eq code x = true.
Proof. apply existsb_exists. Qed.

Lemma normalized_success_codes (successCode : value) :
  array_items (if negb (Array_isArray successCode)
               then VArr [successCode] else successCode)
  = success_codes successCode.
Proof. now destruct successCode. Qed.

Lemma truthy_object (json : value) :
  typeof json = "object" -> truthy json = true <-> json <> VNull.
Proof.
  destruct json; simpl; try discriminate; intros _;
    split; intros H; try reflexivity; try discriminate; try congruence.
Qed.

Lemma defined_true (v : value) : defined v = true <-> v <> VUndefined.
Proof. destruct v; simpl; split; intros H; congruence. Qed.

(** C3, as amended.  Let [json] be an object or [null], as its parameter
    type says, and let the descriptor be [options.responseResultKey].
    When the options or the descriptor are [undefined] or [null] the
    interpreter throws a [TypeError]: it returns nothing.  Otherwise the
    success codes are the elements of [options.successCode] when it is an
    array and that single value otherwise; if [json] is not [null], its
    field named by the descriptor's [code] is defined and is one of the
    success codes, the interpreter returns the field named by the
    descriptor's [data]; in every other case it returns, without throwing,
    the [HttpResponseError] that wraps the raw response and the options.
    A field of [json] is read as the code reads it, through the prototype
    chain. *)
Theorem handleJsonResponse_interprets
  (inherited : value -> string -> value) (json response options : value) :
  typeof json = "object" ->
  let descriptor := prop options "responseResultKey" in
  let code := member inherited json (ToString (prop descriptor "code")) in
  let payload := member inherited json (ToString (prop descriptor "data")) in
  let codes := success_codes (prop options "successCode") in
  let succeeded :=
    json <> VNull /\ code <> VUndefined /\
    exists c, In c codes /\ strict_eq c code = true in
  (nullish options = true \/ nullish descriptor = true ->
   _handleJsonResponse inherited json response options = Throw TypeError)
  /\ (nullish options = false -> nullish descriptor = false ->
      (succeeded ->
       _handleJsonResponse inherited json response options = Normal payload)
      /\ (~ succeeded ->
          _handleJsonResponse inherited json response options
          = Normal (HttpResponseError response options))).
Proof.
  intros Hobject descriptor code payload codes succeeded. split.
  - intros Hmissing. unfold _handleJsonResponse, Get.
    destruct (nullish options) eqn:Hoptions; [reflexivity|].
    destruct Hmissing as [Hmissing|Hmissing]; [discriminate|].
    cbn [bindC]. fold descriptor. rewrite Hmissing. reflexivity.
  - intros Hoptions Hdescriptor.
    unfold _handleJsonResponse, Get. rewrite Hoptions. cbn [bindC].
    fold descriptor. rewrite Hdescriptor. cbn [bindC].
    rewrite normalized_success_codes, typeof_undefined, negb_involutive.
    fold code codes payload.
    destruct (truthy json && defined code && includes_strict codes code) eqn:Htest.
    + split; [reflexivity|]. intros Hnot. exfalso. apply Hnot.
      apply andb_prop in Htest as [Htest Hmember].
      apply andb_prop in Htest as [Hjson Hcode].
      split; [now apply truthy_object|].
      split; [now apply defined_true|].
      now apply includes_strict_member.
    + split; [|reflexivity]. intros (Hjson & Hcode & Hmember).
      apply truthy_object in Hjson; [|assumption].
      apply defined_true in Hcode. apply includes_strict_member in Hmember.
      rewrite Hjson, Hcode, Hmember in Htest. discriminate.
Qed.

Lemma handleJsonResponse_interprets_witness :
  let options :=
    VObj [("responseResultKey", VObj [("code", VStr "code"); ("data", VStr "data")]);
          ("successCode", VNum 0)] in
  let raw (body : value) := VObj [("status", VNum 200); ("data", body)] in
  let ok := VObj [("code", VNum 0); ("data", VObj [("v", VNum 1)])] in
  let ko := VObj [("code", VNum 1)] in
  _handleJsonResponse Fixture.inherited ok (raw ok) options
  = Normal (VObj [("v", VNum 1)])
  /\ _handleJsonResponse Fixture.inherited ko (raw ko) options
     = Normal (HttpResponseError (raw ko) options)
  /\ _handleJsonResponse Fixture.inherited ok (raw ok) (VObj [("successCode", VNum 0)])
     = Throw TypeError.
Proof.
  intros options raw ok ko. split; [|split].
  - apply (handleJsonResponse_interprets Fixture.inherited ok (raw ok) options);
      try reflexivity.
    split; [discriminate|]. split; [discriminate|].
    exists (VNum 0). split; [now left|reflexivity].
  - apply (handleJsonResponse_interprets Fixture.inherited ko (raw ko) options);
      try reflexivity.
    intros (_ & _ & c & [<-|[]] & Heq). discriminate Heq.
  - apply (handleJsonResponse_interprets Fixture.inherited ok (raw ok)
             (VObj [("successCode", VNum 0)])); [reflexivity|].
    right. reflexivity.
Defined.

(** C3, counterexample.  The options name a success code but carry no key
    descriptor; the body is an object whose [code] is that success code.
    The interpreter neither returns a payload nor returns the
    [HttpResponseError]: reading [code] off the missing descriptor throws
    a [TypeError]. *)
Lemma handleJsonResponse_throws_without_descriptor :
  _handleJsonResponse Fixture.inherited
    (VObj [("code", VNum 0); ("data", VObj [("v", VNum 1)])])
    (VObj [("status", VNum 200)])
    (VObj [("successCode", VNum 0)])
  = Throw TypeError.
Proof. reflexivity. Qed.

(** ** Request executor *)

Lemma isValidMethod_In (method : string) :
  _isValidMethod method = true <-> In method valid_methods.
Proof.
  unfold _isValidMethod. rewrite existsb_exists. split.
  - intros [allowed [Hin Heq]]. apply String.eqb_eq in Heq. now subst.
  - intros Hin. exists method. split; [assumption|apply String.eqb_refl].
Qed.

Section Executor.

Variable Axios_request : AxiosRequestConfig -> exchange.

(** C4. Subscribing to the executor's stream with an empty url ends it
    with the error "the url is required!", and with a non-empty url and
    a method outside the allow-list with the error "method ... is not
    valid!"; in both cases no effect at all has been performed, and
    conversely a transport call in the effects of a run means that the
    url was not empty and the method was in the allow-list. *)
Theorem request_validates_before_transport
  (method url : string) (options : value) (this : HttpClient) :
  (url = "" ->
   subscribe (_request Axios_request method url options) this
   = ([], [error (JsError "the url is required!")]))
  /\ (url <> "" -> ~ In method valid_methods ->
      subscribe (_request Axios_request method url options) this
      = ([], [error (JsError ("method " ++ method ++ " is not valid!"))]))
  /\ (forall config,
         In (AxiosRequest config)
            (fst (subscribe (_request Axios_request method url options) this)) ->
         url <> "" /\ In method valid_methods).
Proof.
  unfold subscribe, _request, Rx.create. split; [|split].
  - now intros ->.
  - intros Hurl Hmethod. apply String.eqb_neq in Hurl. rewrite Hurl.
    destruct (_isValidMethod method) eqn:Hvalid; [|reflexivity].
    now apply isValidMethod_In in Hvalid.
  - intros config Hcalled.
    destruct (String.eqb_spec url "") as [->|Hurl]; [now destruct Hcalled|].
    destruct (_isValidMethod method) eqn:Hvalid; [|now destruct Hcalled].
    split; [assumption|now apply isValidMethod_In].
Qed.

End Executor.

Lemma request_validates_before_transport_witness :
  let transport (_ : AxiosRequestConfig) :=
    {| reported := []; settled := fulfilled VNull |} in
  subscribe (_request transport "get" "" VUndefined) createClient
  = ([], [error (JsError "the url is required!")])
  /\ subscribe (_request transport "fetch" "/api" VUndefined) createClient
     = ([], [error (JsError "method fetch is not valid!")]).
Proof.
  intros transport. split.
  - now apply (request_validates_before_transport transport "get" "").
  - apply (request_validates_before_transport transport "fetch" "/api").
    + discriminate.
    + simpl. intuition discriminate.
Defined.

(** ** Error classifier *)

Lemma strict_eq_undefined (v : value) :
  strict_eq v VUndefined = true <-> v = VUndefined.
Proof. destruct v; simpl; split; intros H; congruence. Qed.

(** Emitting on [undefined] reaches no callback registered elsewhere. *)
Lemma emit_undefined_silent (args : list value) (bus : PubSub.t) :
  Forall (fun registration => fst registration <> VUndefined) bus ->
  PubSub.emit VUndefined args bus = ([], Normal tt).
Proof.
  induction 1 as [|[topic cb] rest Htopic _ IH]; simpl; [reflexivity|].
  destruct (strict_eq topic VUndefined) eqn:Heq; [|exact IH].
  apply strict_eq_undefined in Heq. now destruct Htopic.
Qed.

Lemma lookup_member (key : string) (members : list (string * value)) :
  In key (List.map fst members) -> In (lookup key members) (List.map snd members).
Proof.
  induction members as [|[k v] rest IH]; simpl; [now intros []|].
  intros Hin. destruct (String.eqb_spec k key) as [_|Hne]; [now left|].
  right. apply IH. now destruct Hin.
Qed.

Section Classifier.

Variable clear_is_bound : bool.
Variable HTTP_DEFAULT_CONFIG : value.
Variable HttpErrorCodeType : list (string * value).
Variable status : value -> Z.

Local Abbreviation handleResponseError :=
  (_handleResponseError HttpErrorCodeType status).
Local Abbreviation run' := (run clear_is_bound HTTP_DEFAULT_CONFIG HttpErrorCodeType).
Local Abbreviation classified := (classified HttpErrorCodeType).

Lemma listen_loop_classified (handle : handler) (keys : list string) :
  forall bus,
    (forall key, In key keys -> In key (List.map fst HttpErrorCodeType)) ->
    Forall classified bus ->
    Forall classified (listen_loop HttpErrorCodeType keys handle bus).
Proof.
  induction keys as [|key rest IH]; intros bus Hkeys Hbus; simpl.
  - assumption.
  - apply IH; [intros k Hk; apply Hkeys; now right|].
    unfold PubSub.on. apply Forall_app. split; [assumption|].
    constructor; [|constructor].
    unfold classified. simpl. apply lookup_member, Hkeys. now left.
Qed.

(** Every registration of a client driven through its interface is
    under a member of the enum. *)
Lemma run_classified (calls : list call) :
  forall this,
    Forall classified (_pubsub this) ->
    Forall classified (_pubsub (run' calls this)).
Proof.
  induction calls as [|c rest IH]; intros this Hbus; simpl; [assumption|].
  apply IH. destruct c; simpl; try assumption.
  - unfold init. now destruct (_inited this).
  - unfold setCommonHeader. now destruct (key =? "__proto__").
  - now apply listen_loop_classified.
  - destruct clear_is_bound; [constructor|assumption].
Qed.

(** C2. The classifier emits [(err, options)] on the bus under the topic
    its table gives for [err.status]: [Offline] for 0, [UnAuth] for 401,
    [NotFound] for 404, [Server] from 500 on.  For any other status the
    topic it passes is [undefined], so that on a bus where nothing is
    registered under [undefined] no callback runs and no effect is
    performed; such is the bus of every client driven through its
    interface from creation, its registrations being under the members
    of the classification enum, none of which is [undefined]. *)
Theorem handleResponseError_classifies (this : HttpClient) (err options : value) :
  let published topic := PubSub.emit topic [err; options] (_pubsub this) in
  (status err = 0%Z ->
   handleResponseError this err options
   = published (HttpErrorCodeType_Offline HttpErrorCodeType))
  /\ (status err = 401%Z ->
      handleResponseError this err options
      = published (HttpErrorCodeType_UnAuth HttpErrorCodeType))
  /\ (status err = 404%Z ->
      handleResponseError this err options
      = published (HttpErrorCodeType_NotFound HttpErrorCodeType))
  /\ ((500 <= status err)%Z ->
      handleResponseError this err options
      = published (HttpErrorCodeType_Server HttpErrorCodeType))
  /\ (status err <> 0%Z -> status err <> 401%Z -> status err <> 404%Z ->
      (status err < 500)%Z ->
      handleResponseError this err options = published VUndefined
      /\ (Forall (fun registration => fst registration <> VUndefined)
                 (_pubsub this) ->
          handleResponseError this err options = ([], Normal tt))
      /\ (forall calls,
             Forall (fun member => snd member <> VUndefined) HttpErrorCodeType ->
             handleResponseError (run' calls createClient) err options
             = ([], Normal tt))).
Proof.
  intros published. unfold _handleResponseError. fold published.
  repeat split.
  - now intros ->.
  - now intros ->.
  - now intros ->.
  - intros Hserver.
    destruct (Z.geb_spec (status err) 500) as [_|Hlt]; [|lia].
    destruct (Z.eqb_spec (status err) 0) as [H0|_]; [lia|].
    destruct (Z.eqb_spec (status err) 401) as [H401|_]; [lia|].
    destruct (Z.eqb_spec (status err) 404) as [H404|_]; [lia|reflexivity].
  - destruct (Z.geb_spec (status err) 500) as [Hge|_]; [lia|].
    destruct (Z.eqb_spec (status err) 0) as [Heq|_]; [contradiction|].
    destruct (Z.eqb_spec (status err) 401) as [Heq|_]; [contradiction|].
    destruct (Z.eqb_spec (status err) 404) as [Heq|_]; [contradiction|].
    reflexivity.
  - intros Hbus.
    destruct (Z.geb_spec (status err) 500) as [Hge|_]; [lia|].
    destruct (Z.eqb_spec (status err) 0) as [Heq|_]; [contradiction|].
    destruct (Z.eqb_spec (status err) 401) as [Heq|_]; [contradiction|].
    destruct (Z.eqb_spec (status err) 404) as [Heq|_]; [contradiction|].
    now apply emit_undefined_silent.
  - intros calls Hmembers.
    destruct (Z.geb_spec (status err) 500) as [Hge|_]; [lia|].
    destruct (Z.eqb_spec (status err) 0) as [Heq|_]; [contradiction|].
    destruct (Z.eqb_spec (status err) 401) as [Heq|_]; [contradiction|].
    destruct (Z.eqb_spec (status err) 404) as [Heq|_]; [contradiction|].
    apply emit_undefined_silent.
    assert (Hbus : Forall classified (_pubsub (run' calls createClient)))
      by (apply run_classified; constructor).
    apply Forall_forall. intros registration Hin Hundefined.
    rewrite Forall_forall in Hbus. specialize (Hbus _ Hin).
    unfold classified in Hbus. rewrite Hundefined in Hbus.
    apply in_map_iff in Hbus as [member [Hsnd Hmember]].
    rewrite Forall_forall in Hmembers. now apply (Hmembers _ Hmember).
Qed.

End Classifier.

Lemma handleResponseError_classifies_witness :
  let err (code : Z) :=
    HttpResponseError (VObj [("status", VNum code)]) (VObj []) in
  let classify (code : Z) :=
    _handleResponseError Fixture.HttpErrorCodeType Fixture.status
      Fixture.client_recording (err code) (VObj []) in
  classify 0%Z = ([Called 1 (VStr "offline") (err 0%Z) (VObj [])], Normal tt)
  /\ classify 401%Z = ([Called 1 (VStr "unauth") (err 401%Z) (VObj [])], Normal tt)
  /\ classify 404%Z = ([Called 1 (VStr "notfound") (err 404%Z) (VObj [])], Normal tt)
  /\ classify 503%Z = ([Called 1 (VStr "server") (err 503%Z) (VObj [])], Normal tt)
  /\ classify 418%Z = ([], Normal tt).
Proof.
  intros err classify. unfold classify.
  pose proof (handleResponseError_classifies true Fixture.HTTP_DEFAULT_CONFIG
                Fixture.HttpErrorCodeType Fixture.status
                Fixture.client_recording) as Hspec.
  split; [|split; [|split; [|split]]].
  - rewrite (proj1 (Hspec (err 0%Z) (VObj []))) by reflexivity.
    reflexivity.
  - rewrite (proj1 (proj2 (Hspec (err 401%Z) (VObj [])))) by reflexivity.
    reflexivity.
  - rewrite (proj1 (proj2 (proj2 (Hspec (err 404%Z) (VObj []))))) by reflexivity.
    reflexivity.
  - rewrite (proj1 (proj2 (proj2 (proj2 (Hspec (err 503%Z) (VObj []))))))
      by (simpl; lia).
    reflexivity.
  - apply (proj2 (proj2 (proj2 (proj2 (Hspec (err 418%Z) (VObj [])))))
             ltac:(discriminate) ltac:(discriminate) ltac:(discriminate)
             ltac:(simpl; lia)).
    repeat constructor; discriminate.
Defined.

(** ** Facade: initialisation and listeners *)

Section FacadeProperties.

Variable clear_is_bound : bool.
Variable HTTP_DEFAULT_CONFIG : value.
Variable HttpErrorCodeType : list (string * value).

Local Abbreviation init' := (init HTTP_DEFAULT_CONFIG).
Local Abbreviation step' := (step clear_is_bound HTTP_DEFAULT_CONFIG HttpErrorCodeType).
Local Abbreviation run' := (run clear_is_bound HTTP_DEFAULT_CONFIG HttpErrorCodeType).
Local Abbreviation listen' := (listen HttpErrorCodeType).

Lemma init_inited (config : value) (this : HttpClient) :
  _inited (init' config this) = true.
Proof. unfold init. now destruct (_inited this) eqn:Hinited. Qed.

(** Once initialised, no call changes the flag or the configuration. *)
Lemma step_initialized (this : HttpClient) (c : call) :
  _inited this = true ->
  _inited (step' this c) = true /\ _config (step' this c) = _config this.
Proof.
  intros Hinited. destruct c; simpl; try (split; [assumption|reflexivity]).
  - unfold init. rewrite Hinited. now split.
  - unfold setCommonHeader. destruct (key =? "__proto__"); now split.
  - destruct clear_is_bound; now split.
Qed.

Lemma run_initialized (calls : list call) :
  forall this,
    _inited this = true ->
    _inited (run' calls this) = true /\ _config (run' calls this) = _config this.
Proof.
  induction calls as [|c rest IH]; intros this Hinited; simpl.
  - now split.
  - destruct (step_initialized this c Hinited) as [Hflag Hconfig].
    destruct (IH _ Hflag) as [Hflag' Hconfig'].
    split; [assumption|congruence].
Qed.


Lemma listen_loop_length (handle : handler) (keys : list string) :
  forall bus,
    length (listen_loop HttpErrorCodeType keys handle bus)
    = length bus + length keys.
Proof.
  induction keys as [|key rest IH]; intros bus; simpl.
  - lia.
  - rewrite IH. unfold PubSub.on. rewrite length_app. simpl. lia.
Qed.

End FacadeProperties.

(** ** Streams *)

Lemma filter_stream_pass (predicate : value -> bool) (s : stream) :
  (forall v, predicate v = true) -> well_formed s = true ->
  Rx.filter_stream predicate s = s.
Proof.
  intros Hpass. induction s as [|n rest IH]; simpl; [reflexivity|].
  destruct n as [v|e|]; intros Hwf.
  - rewrite Hpass. f_equal. now apply IH.
  - now destruct rest.
  - now destruct rest.
Qed.

Lemma map_stream_pass (project : value -> completion value) (s : stream) :
  (forall v, project v = Normal v) -> well_formed s = true ->
  Rx.map_stream project s = s.
Proof.
  intros Hpass. induction s as [|n rest IH]; simpl; [reflexivity|].
  destruct n as [v|e|]; intros Hwf.
  - rewrite Hpass. f_equal. now apply IH.
  - now destruct rest.
  - now destruct rest.
Qed.

Lemma catch_stream_pass (selector : value -> Eff Observable) (this : HttpClient)
  (s : stream) :
  well_formed s = true -> existsb is_error s = false ->
  Rx.catch_stream selector this s = ([], s).
Proof.
  induction s as [|n rest IH]; simpl; [reflexivity|].
  destruct n as [v|e|]; simpl; intros Hwf Hclean.
  - now rewrite IH.
  - discriminate.
  - now destruct rest.
Qed.

Lemma filter_stream_well_formed (predicate : value -> bool) (s : stream) :
  well_formed (Rx.filter_stream predicate s) = true.
Proof.
  induction s as [|[v|e|] rest IH]; simpl; try reflexivity.
  now destruct (predicate v).
Qed.

Lemma map_stream_well_formed (project : value -> completion value) (s : stream) :
  well_formed (Rx.map_stream project s) = true.
Proof.
  induction s as [|[v|e|] rest IH]; simpl; try reflexivity.
  now destruct (project v).
Qed.

(** The recovery stage on a stream that ends with an error. *)
Lemma catch_stream_error (selector : value -> Eff Observable) (this : HttpClient)
  (values : list value) (e : value) :
  Rx.catch_stream selector this (List.map next values ++ [error e])
  = match selector e with
    | (log, Normal o) =>
        let (log', out) := o this in (log ++ log', List.map next values ++ out)
    | (log, Throw e') => (log, List.map next values ++ [error e'])
    end.
Proof.
  induction values as [|v rest IH]; simpl.
  - destruct (selector e) as [log [o|e']]; [|reflexivity].
    now destruct (o this).
  - rewrite IH. destruct (selector e) as [log [o|e']]; [|reflexivity].
    now destruct (o this).
Qed.

(** A selector that always answers with a single value removes the error. *)
Lemma catch_stream_recovers (selector : value -> Eff Observable) (this : HttpClient)
  (s : stream) :
  (forall e, exists log v, selector e = (log, Normal (Rx.of_value v))) ->
  existsb is_error (snd (Rx.catch_stream selector this s)) = false.
Proof.
  intros Hselector. induction s as [|[v|e|] rest IH]; simpl; try reflexivity.
  - destruct (Rx.catch_stream selector this rest) as [log out]. exact IH.
  - destruct (Hselector e) as (log & v & ->). reflexivity.
Qed.

Lemma emit_quiet (topic : value) (args : list value) (bus : PubSub.t) :
  quiet bus -> snd (PubSub.emit topic args bus) = Normal tt.
Proof.
  induction 1 as [|[registered cb] rest Hcb _ IH]; simpl; [reflexivity|].
  destruct (strict_eq registered topic); [|exact IH].
  simpl in Hcb. specialize (Hcb args).
  unfold bind. destruct (cb args) as [log [[]|e]]; simpl in Hcb; [|discriminate].
  destruct (PubSub.emit topic args rest) as [log' r]. exact IH.
Qed.

Lemma strict_eq_eq (a b : value) : strict_eq a b = true -> a = b.
Proof.
  destruct a, b; simpl; try discriminate; intros H; try reflexivity.
  - apply Bool.eqb_prop in H. now subst.
  - apply Z.eqb_eq in H. now subst.
  - apply String.eqb_eq in H. now subst.
  - apply Nat.eqb_eq in H. now subst.
Qed.

Section Pipeline.

Variable inherited : value -> string -> value.
Variable HTTP_DEFAULT_REQUEST_OPTION : value.
Variable HttpErrorCodeType : list (string * value).
Variable HttpObserveType : list (string * value).
Variable status : value -> Z.
Variable Axios_request : AxiosRequestConfig -> exchange.

Local Abbreviation request' :=
  (request inherited HTTP_DEFAULT_REQUEST_OPTION HttpErrorCodeType
     HttpObserveType status Axios_request).
Local Abbreviation executor := (_request Axios_request).
Local Abbreviation filter' := (request_filter HttpObserveType).
Local Abbreviation map' := (request_map inherited HttpObserveType).
Local Abbreviation catch' := (request_catch HttpErrorCodeType status).
Local Abbreviation classifier := (_handleResponseError HttpErrorCodeType status).
Local Abbreviation Event := (HttpObserveType_Event HttpObserveType).
Local Abbreviation Body := (HttpObserveType_Body HttpObserveType).
Local Abbreviation merged' := (merged HTTP_DEFAULT_REQUEST_OPTION).
Local Abbreviation upstream' := (upstream inherited HttpObserveType Axios_request).

Lemma request_initialized (method url : string) (options : value)
  (this : HttpClient) :
  _inited this = true ->
  request' method url options this
  = Normal (Rx.catchError (catch' (merged' this options))
              (upstream' method url (merged' this options))).
Proof. intros Hinited. unfold request. now rewrite Hinited. Qed.

Lemma relay_well_formed (x : exchange) (options : value) :
  well_formed (relay x options) = true.
Proof.
  unfold relay. induction (reported x) as [|p rest IH]; simpl.
  - now destruct (settled x).
  - now destruct p.
Qed.

Lemma executor_well_formed (method url : string) (options : value)
  (this : HttpClient) :
  well_formed (snd (subscribe (executor method url options) this)) = true.
Proof.
  unfold subscribe, _request, Rx.create.
  destruct (url =? ""); [reflexivity|].
  destruct (_isValidMethod method); [|reflexivity]. simpl.
  destruct (Get (default_arg options (VObj [])) "params"); [|reflexivity].
  simpl.
  destruct (Get (default_arg options (VObj [])) "header"); [|reflexivity].
  simpl. apply relay_well_formed.
Qed.

Lemma executor_missing_url (method : string) (options : value)
  (this : HttpClient) :
  subscribe (executor method "" options) this
  = ([], [error (JsError "the url is required!")]).
Proof. reflexivity. Qed.

Lemma executor_invalid_method (method url : string) (options : value)
  (this : HttpClient) :
  url <> "" -> ~ In method valid_methods ->
  subscribe (executor method url options) this
  = ([], [error (JsError ("method " ++ method ++ " is not valid!"))]).
Proof.
  intros Hurl Hmethod. unfold subscribe, _request, Rx.create.
  apply String.eqb_neq in Hurl. rewrite Hurl.
  destruct (_isValidMethod method) eqn:Hvalid; [|reflexivity].
  now apply isValidMethod_In in Hvalid.
Qed.

(** In event mode the first two stages let everything through. *)
Lemma event_mode_stages (options : value) :
  strict_eq (prop options "observe") Event = true ->
  strict_eq Event Body = false ->
  (forall response, filter' options response = true)
  /\ (forall interpret response,
         request_map_with HttpObserveType interpret options response
         = Normal response).
Proof.
  intros Hevent Hdistinct. split.
  - intros response. unfold request_filter. now rewrite Hevent.
  - intros interpret response. unfold request_map_with.
    apply strict_eq_eq in Hevent. now rewrite Hevent, Hdistinct.
Qed.

(** What a subscription to the observable of [request] does, stage by
    stage. *)
Lemma subscribe_pipeline (options : value) (source : Observable)
  (this : HttpClient) :
  subscribe (Rx.catchError (catch' options) source) this
  = let recovered :=
      Rx.catch_stream (catch' options this) this (snd (subscribe source this)) in
    (fst (subscribe source this) ++ fst recovered, snd recovered).
Proof.
  unfold subscribe, Rx.catchError. destruct (source this) as [log s]. simpl.
  now destruct (Rx.catch_stream (catch' options this) this s).
Qed.

Lemma upstream_well_formed (method url : string) (options : value)
  (this : HttpClient) :
  well_formed (snd (subscribe (upstream' method url options) this)) = true.
Proof.
  unfold subscribe, upstream, Rx.map, Rx.filter.
  destruct (executor method url options this) as [log s]. simpl.
  apply map_stream_well_formed.
Qed.

(** C10. For an initialised client whose merged options have [observe]
    equal to [Event] (a member distinct from [Body]), the filter stage
    keeps every notification and the mapping stage returns every value
    as it is, whatever the response interpreter would answer, so that
    the stream reaching the recovery stage is the executor's own; and a
    subscription to [request] performs the effects and delivers the
    notifications of the executor itself, progress events and raw
    response alike, whenever the executor's stream carries no error. *)
Theorem request_event_passthrough
  (method url : string) (options : value) (this : HttpClient) :
  _inited this = true ->
  strict_eq (prop (merged' this options) "observe") Event = true ->
  strict_eq Event Body = false ->
  (forall response, filter' (merged' this options) response = true)
  /\ (forall interpret response,
         request_map_with HttpObserveType interpret (merged' this options) response
         = Normal response)
  /\ (forall subscription : HttpClient,
         subscribe (upstream' method url (merged' this options)) subscription
         = subscribe (executor method url (merged' this options)) subscription)
  /\ exists observable,
      request' method url options this = Normal observable
      /\ forall subscription : HttpClient,
          existsb is_error
            (snd (subscribe (executor method url (merged' this options))
                    subscription)) = false ->
          subscribe observable subscription
          = subscribe (executor method url (merged' this options)) subscription.
Proof.
  intros Hinited Hevent Hdistinct.
  destruct (event_mode_stages _ Hevent Hdistinct) as [Hfilter Hmap].
  split; [exact Hfilter|]. split; [exact Hmap|].
  assert (Hsame : forall subscription : HttpClient,
             subscribe (upstream' method url (merged' this options)) subscription
             = subscribe (executor method url (merged' this options)) subscription).
  { intros subscription.
    pose proof (executor_well_formed method url (merged' this options) subscription)
      as Hwf.
    unfold subscribe in *. unfold upstream, Rx.map, Rx.filter.
    destruct (executor method url (merged' this options) subscription) as [log s].
    simpl in *. rewrite filter_stream_pass by assumption.
    unfold request_map. now rewrite map_stream_pass by auto. }
  split; [exact Hsame|].
  eexists. split; [now apply request_initialized|].
  intros subscription Hclean.
  pose proof (executor_well_formed method url (merged' this options) subscription)
    as Hwf.
  rewrite subscribe_pipeline, Hsame.
  destruct (subscribe (executor method url (merged' this options)) subscription)
    as [log s].
  simpl in *. rewrite catch_stream_pass by assumption. simpl.
  now rewrite app_nil_r.
Qed.

(** The recovery stage's selector: a [HttpResponseError] goes to the
    classifier, anything else to the console, and unless the classifier
    throws the answer is the observable of the failure value. *)
Lemma catch_response_error (options : value) (this : HttpClient)
  (reason opts : value) :
  let err := HttpResponseError reason opts in
  catch' options this err
  = (fst (classifier this err options),
     match snd (classifier this err options) with
     | Normal _ => Normal (Rx.of_value (failure err))
     | Throw e => Throw e
     end).
Proof.
  simpl. unfold request_catch, bind.
  destruct (classifier this (HttpResponseError reason opts) options)
    as [log [[]|e]]; simpl; [|reflexivity].
  now rewrite app_nil_r.
Qed.

Lemma catch_other_error (options : value) (this : HttpClient) (e : value) :
  (forall reason opts, e <> HttpResponseError reason opts) ->
  catch' options this e = ([ConsoleError e], Normal (Rx.of_value (failure e))).
Proof.
  intros Hother. destruct e; try reflexivity. now destruct (Hother e1 e2).
Qed.

Lemma classifier_quiet (options : value) (this : HttpClient) (err : value) :
  quiet (_pubsub this) -> snd (classifier this err options) = Normal tt.
Proof. intros Hquiet. unfold _handleResponseError. now apply emit_quiet. Qed.

Lemma catch_quiet (options : value) (this : HttpClient) :
  quiet (_pubsub this) ->
  forall e, exists log v, catch' options this e = (log, Normal (Rx.of_value v)).
Proof.
  intros Hquiet e. destruct e;
    try (eexists; eexists; reflexivity).
  rewrite catch_response_error, classifier_quiet by assumption.
  eexists; eexists; reflexivity.
Qed.

(** C1, as amended.  Let [request] return an observable.  On a
    subscription during which no callback of the bus throws, the
    delivered stream carries no error notification.  When the stream
    reaching the recovery stage ends with a [HttpResponseError], the
    classifier runs (its effects follow those of the request) and, if the
    publication it makes returns, the stream is resolved with
    [{result: null, response: error, isSuccess: false}] and completes.
    When it ends with any other error, whether or not callbacks throw,
    the error is written to the console and the stream is resolved in
    the same way.  A stream that reaches the recovery stage without error
    is delivered as it is.  And when a callback does throw while the
    classifier publishes, what it threw ends the delivered stream as its
    error. *)
Theorem request_recovers_errors
  (method url : string) (options : value) (this : HttpClient)
  (observable : Observable) (subscription : HttpClient) :
  request' method url options this = Normal observable ->
  let options' := merged' this options in
  let source := subscribe (upstream' method url options') subscription in
  (quiet (_pubsub subscription) ->
   existsb is_error (snd (subscribe observable subscription)) = false)
  /\ (forall values reason opts,
         snd source = List.map next values ++ [error (HttpResponseError reason opts)] ->
         snd (classifier subscription (HttpResponseError reason opts) options')
         = Normal tt ->
         subscribe observable subscription
         = (fst source
            ++ fst (classifier subscription (HttpResponseError reason opts) options'),
            List.map next values
            ++ [next (failure (HttpResponseError reason opts)); complete]))
  /\ (forall values e,
         (forall reason opts, e <> HttpResponseError reason opts) ->
         snd source = List.map next values ++ [error e] ->
         subscribe observable subscription
         = (fst source ++ [ConsoleError e],
            List.map next values ++ [next (failure e); complete]))
  /\ (existsb is_error (snd source) = false ->
      subscribe observable subscription = source)
  /\ (forall values reason opts thrown,
         snd source = List.map next values ++ [error (HttpResponseError reason opts)] ->
         snd (classifier subscription (HttpResponseError reason opts) options')
         = Throw thrown ->
         subscribe observable subscription
         = (fst source
            ++ fst (classifier subscription (HttpResponseError reason opts) options'),
            List.map next values ++ [error thrown])).
Proof.
  intros Hrequest options' source.
  assert (Hobservable :
            observable = Rx.catchError (catch' options') (upstream' method url options')).
  { unfold request in Hrequest.
    destruct (_inited this); simpl in Hrequest; [|discriminate].
    now injection Hrequest as <-. }
  subst observable. rewrite subscribe_pipeline. fold source.
  split; [intros Hquiet|split; [|split; [|split]]].
  - simpl. now apply catch_stream_recovers, catch_quiet.
  - intros values reason opts Hends Hreturns.
    rewrite Hends, catch_stream_error, catch_response_error, Hreturns.
    simpl. now rewrite app_nil_r.
  - intros values e Hother Hends. rewrite Hends, catch_stream_error.
    rewrite catch_other_error by assumption. reflexivity.
  - intros Hclean.
    rewrite catch_stream_pass;
      [|apply upstream_well_formed|assumption].
    simpl. rewrite app_nil_r. now destruct source.
  - intros values reason opts thrown Hends Hthrown.
    rewrite Hends, catch_stream_error, catch_response_error, Hthrown.
    reflexivity.
Qed.

(** C6, as amended.  Used before [init], [request] throws at the call,
    and nothing is returned to subscribe to.  On an initialised client
    [request] itself never throws: an empty url or a method outside the
    allow-list shows only at subscription, as the error of the
    executor's stream, which the recovery stage writes to the console
    and turns into [{result: null, response: error, isSuccess: false}]
    followed by completion. *)
Theorem invalid_argument_paths
  (method url : string) (options : value) (this : HttpClient) :
  (_inited this = false ->
   request' method url options this = Throw (JsError "please call init first"))
  /\ (_inited this = true ->
      exists observable,
        request' method url options this = Normal observable
        /\ forall subscription : HttpClient,
            (url = "" ->
             let e := JsError "the url is required!" in
             subscribe observable subscription
             = ([ConsoleError e], [next (failure e); complete]))
            /\ (url <> "" -> ~ In method valid_methods ->
                let e := JsError ("method " ++ method ++ " is not valid!") in
                subscribe observable subscription
                = ([ConsoleError e], [next (failure e); complete]))).
Proof.
  split.
  - intros Hinited. unfold request. now rewrite Hinited.
  - intros Hinited. eexists. split; [now apply request_initialized|].
    intros subscription.
    assert (Hrecover : forall e,
               (forall reason opts, e <> HttpResponseError reason opts) ->
               subscribe (executor method url (merged' this options)) subscription
               = ([], [error e]) ->
               subscribe
                 (Rx.catchError (catch' (merged' this options))
                    (upstream' method url (merged' this options))) subscription
               = ([ConsoleError e], [next (failure e); complete])).
    { intros e Hother Hexecutor. rewrite subscribe_pipeline.
      assert (Hsource :
                subscribe (upstream' method url (merged' this options)) subscription
                = ([], [error e])).
      { unfold subscribe in *. unfold upstream, Rx.map, Rx.filter.
        now rewrite Hexecutor. }
      rewrite Hsource. simpl.
      now rewrite (catch_other_error _ _ e Hother). }
    split.
    + intros -> e. apply Hrecover; [discriminate|apply executor_missing_url].
    + intros Hurl Hmethod e.
      apply Hrecover; [discriminate|now apply executor_invalid_method].
Qed.

End Pipeline.

(** ** The pipeline on the concrete environment *)

Lemma recording_bus_quiet : quiet (_pubsub Fixture.client_recording).
Proof. repeat constructor. Qed.

Lemma request_event_passthrough_witness :
  let options := VObj [("observe", VStr "event")] in
  let raw :=
    VObj [("status", VNum 200);
          ("data", VObj [("code", VNum 0); ("data", VObj [("v", VNum 1)])])] in
  exists observable,
    Fixture.request Fixture.online "get" "/api" options Fixture.client
    = Normal observable
    /\ snd (subscribe observable Fixture.client)
       = [next (HttpUploadProgressEvent (VNum 10));
          next (HttpDownloadProgressEvent (VNum 20));
          next raw; complete].
Proof.
  intros options raw.
  destruct (request_event_passthrough Fixture.inherited
              Fixture.HTTP_DEFAULT_REQUEST_OPTION
              Fixture.HttpErrorCodeType Fixture.HttpObserveType Fixture.status
              Fixture.online "get" "/api" options Fixture.client
              eq_refl eq_refl eq_refl)
    as (_ & _ & _ & observable & Hrequest & Hsubscribe).
  exists observable. split; [exact Hrequest|].
  rewrite (Hsubscribe Fixture.client eq_refl). reflexivity.
Defined.

Lemma request_recovers_errors_witness :
  let observable :=
    Rx.catchError
      (request_catch Fixture.HttpErrorCodeType Fixture.status
         (merged Fixture.HTTP_DEFAULT_REQUEST_OPTION Fixture.client VUndefined))
      (upstream Fixture.inherited Fixture.HttpObserveType Fixture.offline "get" "/api"
         (merged Fixture.HTTP_DEFAULT_REQUEST_OPTION Fixture.client VUndefined)) in
  let err :=
    HttpResponseError (VObj [("message", VStr "Network Error")])
      (merged Fixture.HTTP_DEFAULT_REQUEST_OPTION Fixture.client VUndefined) in
  Fixture.request Fixture.offline "get" "/api" VUndefined Fixture.client
  = Normal observable
  /\ existsb is_error (snd (subscribe observable Fixture.client_recording)) = false
  /\ snd (subscribe observable Fixture.client_recording)
     = [next (failure err); complete].
Proof.
  intros observable err.
  pose proof (request_recovers_errors Fixture.inherited
                Fixture.HTTP_DEFAULT_REQUEST_OPTION
                Fixture.HttpErrorCodeType Fixture.HttpObserveType Fixture.status
                Fixture.offline "get" "/api" VUndefined Fixture.client
                observable Fixture.client_recording eq_refl) as Hspec.
  destruct Hspec as (Hclean & Hresolved & _).
  split; [reflexivity|]. split; [exact (Hclean recording_bus_quiet)|].
  rewrite (Hresolved [] (VObj [("message", VStr "Network Error")])
             (merged Fixture.HTTP_DEFAULT_REQUEST_OPTION Fixture.client VUndefined)
             eq_refl eq_refl).
  reflexivity.
Defined.

(** C1 as stated fails: with a listener that throws, an offline failure
    reaches the subscriber as the stream's error. *)
Lemma request_listener_failure_surfaces :
  exists observable,
    Fixture.request Fixture.offline "get" "/api" VUndefined Fixture.client_faulty
    = Normal observable
    /\ snd (subscribe observable Fixture.client_faulty)
       = [error (JsError "listener failed")].
Proof. eexists. split; reflexivity. Qed.

Lemma invalid_argument_paths_witness :
  Fixture.request Fixture.online "get" "/api" VUndefined createClient
  = Throw (JsError "please call init first")
  /\ exists observable,
      Fixture.request Fixture.online "fetch" "/api" VUndefined Fixture.client
      = Normal observable
      /\ subscribe observable Fixture.client
         = ([ConsoleError (JsError "method fetch is not valid!")],
            [next (failure (JsError "method fetch is not valid!")); complete]).
Proof.
  split.
  - exact (proj1 (invalid_argument_paths Fixture.inherited
              Fixture.HTTP_DEFAULT_REQUEST_OPTION
                    Fixture.HttpErrorCodeType Fixture.HttpObserveType
                    Fixture.status Fixture.online "get" "/api" VUndefined
                    createClient) eq_refl).
  - destruct (proj2 (invalid_argument_paths Fixture.inherited
              Fixture.HTTP_DEFAULT_REQUEST_OPTION
                       Fixture.HttpErrorCodeType Fixture.HttpObserveType
                       Fixture.status Fixture.online "fetch" "/api" VUndefined
                       Fixture.client) eq_refl)
      as (observable & Hrequest & Hsubscribe).
    exists observable. split; [exact Hrequest|].
    apply (proj2 (Hsubscribe Fixture.client)).
    + discriminate.
    + simpl. intuition discriminate.
Defined.

(** C6 as stated fails: on an initialised client a request without url is
    not raised at the call; its subscriber receives a failure result. *)
Lemma missing_url_is_recovered :
  exists observable,
    Fixture.request Fixture.online "get" "" VUndefined Fixture.client
    = Normal observable
    /\ subscribe observable Fixture.client
       = ([ConsoleError (JsError "the url is required!")],
          [next (VObj [("result", VNull);
                       ("response", JsError "the url is required!");
                       ("isSuccess", VBool false)]);
           complete]).
Proof. eexists. split; reflexivity. Qed.

(** * Further properties *)

(** ** Objects: assignment and spread *)

Lemma has_own_In (key : string) (props : list (string * value)) :
  has_own key props = true <-> In key (List.map fst props).
Proof.
  unfold has_own. rewrite existsb_exists. split.
  - intros [k [Hin Heq]]. apply String.eqb_eq in Heq. now subst.
  - intros Hin. exists key. split; [assumption|apply String.eqb_refl].
Qed.

Lemma lookup_absent (key : string) (props : list (string * value)) :
  has_own key props = false -> lookup key props = VUndefined.
Proof.
  unfold has_own. induction props as [|[k v] rest IH]; simpl; [reflexivity|].
  rewrite (String.eqb_sym key k). destruct (k =? key); simpl; [discriminate|exact IH].
Qed.

Lemma set_prop_keys (key : string) (v : value) (props : list (string * value)) :
  List.map fst (set_prop key v props)
  = if has_own key props then List.map fst props else List.map fst props ++ [key].
Proof.
  unfold has_own. induction props as [|[k x] rest IH]; simpl; [reflexivity|].
  rewrite (String.eqb_sym key k). destruct (k =? key); simpl; [reflexivity|].
  rewrite IH. now destruct (existsb (String.eqb key) (List.map fst rest)).
Qed.

Lemma set_prop_has (key k : string) (v : value) (props : list (string * value)) :
  has_own key (set_prop k v props) = (key =? k) || has_own key props.
Proof.
  unfold has_own at 1. rewrite set_prop_keys.
  destruct (has_own k props) eqn:Hk.
  - fold (has_own key props).
    destruct (String.eqb_spec key k) as [->|_]; [now rewrite Hk|reflexivity].
  - rewrite existsb_app. simpl. fold (has_own key props).
    now rewrite orb_false_r, orb_comm.
Qed.

Lemma set_prop_NoDup (key : string) (v : value) (props : list (string * value)) :
  NoDup (List.map fst props) -> NoDup (List.map fst (set_prop key v props)).
Proof.
  intros Hnd. rewrite set_prop_keys. destruct (has_own key props) eqn:Hk; [assumption|].
  apply NoDup_app; [assumption|repeat constructor; intros []|].
  intros k Hin [<-|[]]. apply has_own_In in Hin. congruence.
Qed.

Lemma assign_NoDup (source : value) :
  forall target,
    NoDup (List.map fst target) -> NoDup (List.map fst (assign target source)).
Proof.
  unfold assign. induction (own_props source) as [|[k v] rest IH];
    intros target Hnd; simpl; [assumption|].
  apply IH. now apply set_prop_NoDup.
Qed.

Lemma assign_has (key : string) (source : value) :
  forall target,
    has_own key (assign target source)
    = has_own key target || has_own key (own_props source).
Proof.
  unfold assign. induction (own_props source) as [|[k v] rest IH];
    intros target; simpl.
  - now rewrite orb_false_r.
  - rewrite IH, set_prop_has.
    change (has_own key ((k, v) :: rest)) with ((key =? k) || has_own key rest).
    now destruct (key =? k), (has_own key target), (has_own key rest).
Qed.

(** A spread object never holds a key twice. *)
Lemma spread_NoDup (sources : list value) :
  forall props, spread sources = VObj props -> NoDup (List.map fst props).
Proof.
  unfold spread. intros props [= <-].
  assert (Hgen : forall target,
             NoDup (List.map fst target) ->
             NoDup (List.map fst (fold_left assign sources target))).
  { induction sources as [|source rest IH]; intros target Hnd; simpl; [assumption|].
    apply IH. now apply assign_NoDup. }
  apply Hgen. constructor.
Qed.


(** ** Common headers and option merging *)

Lemma set_prop_twice (key : string) (v v' : value) (props : list (string * value)) :
  set_prop key v' (set_prop key v props) = set_prop key v' props.
Proof.
  induction props as [|[k x] rest IH]; simpl.
  - now rewrite String.eqb_refl.
  - destruct (k =? key) eqn:Hk; simpl; rewrite Hk; [reflexivity|now rewrite IH].
Qed.

Lemma getHeader_lookup (this : HttpClient) (hprops : list (string * value))
  (key : string) :
  NoDup (List.map fst (_commonHeader this)) ->
  NoDup (List.map fst hprops) ->
  prop (_getHeader this (VObj hprops)) key
  = if has_own key hprops then lookup key hprops
    else lookup key (_commonHeader this).
Proof.
  intros Hcommon Hheader. unfold _getHeader, spread. simpl.
  rewrite assign_lookup by assumption. fold (has_own key hprops).
  destruct (has_own key hprops); [reflexivity|].
  rewrite assign_lookup by assumption. fold (has_own key (_commonHeader this)).
  destruct (has_own key (_commonHeader this)) eqn:Hown; [reflexivity|].
  simpl. symmetry. now apply lookup_absent.
Qed.

(** X2. The headers of a request are the common headers overridden by the
    headers of the call: a key of the call's [header] object has the
    call's value, any other key the value the common headers give it
    ([undefined] when they have none); without a [header] object the
    headers are the common ones. *)
Theorem getHeader_precedence (this : HttpClient) (hprops : list (string * value))
  (key : string) :
  NoDup (List.map fst (_commonHeader this)) ->
  NoDup (List.map fst hprops) ->
  (has_own key hprops = true ->
   prop (_getHeader this (VObj hprops)) key = lookup key hprops)
  /\ (has_own key hprops = false ->
      prop (_getHeader this (VObj hprops)) key = lookup key (_commonHeader this))
  /\ prop (_getHeader this VUndefined) key = lookup key (_commonHeader this).
Proof.
  intros Hcommon Hheader. split; [|split].
  - intros Hown. now rewrite getHeader_lookup, Hown.
  - intros Hown. now rewrite getHeader_lookup, Hown.
  - change (_getHeader this VUndefined) with (_getHeader this (VObj [])).
    rewrite getHeader_lookup; [reflexivity|assumption|constructor].
Qed.

Lemma getHeader_precedence_witness :
  let this := setCommonHeader "Accept" (VStr "text/plain")
                (setCommonHeader "Authorization" (VStr "token") createClient) in
  let header := [("Accept", VStr "application/json")] in
  prop (_getHeader this (VObj header)) "Accept" = VStr "application/json"
  /\ prop (_getHeader this (VObj header)) "Authorization" = VStr "token".
Proof.
  intros this header.
  assert (Hcommon : NoDup (List.map fst (_commonHeader this))).
  { simpl. repeat constructor; simpl; intuition discriminate. }
  assert (Hheader : NoDup (List.map fst header)).
  { simpl. repeat constructor; simpl; intuition. }
  split.
  - now rewrite (proj1 (getHeader_precedence this header "Accept" Hcommon Hheader)).
  - now rewrite (proj1 (proj2 (getHeader_precedence this header "Authorization"
                                 Hcommon Hheader))).
Defined.

Section Headers.

Variable clear_is_bound : bool.
Variable HTTP_DEFAULT_CONFIG : value.
Variable HttpErrorCodeType : list (string * value).

Local Abbreviation run' := (run clear_is_bound HTTP_DEFAULT_CONFIG HttpErrorCodeType).

Lemma run_commonHeader_NoDup (calls : list call) :
  forall this,
    NoDup (List.map fst (_commonHeader this)) ->
    NoDup (List.map fst (_commonHeader (run' calls this))).
Proof.
  induction calls as [|c rest IH]; intros this Hnd; simpl; [assumption|].
  apply IH. destruct c; simpl; try assumption.
  - unfold init. now destruct (_inited this).
  - unfold setCommonHeader. destruct (key =? "__proto__"); [assumption|].
    now apply set_prop_NoDup.
  - now destruct clear_is_bound.
Qed.

Lemma setCommonHeader_headers (key : string) (v : value) (this : HttpClient) :
  key <> "__proto__" ->
  _commonHeader (setCommonHeader key v this) = set_prop key v (_commonHeader this).
Proof.
  intros Hkey. unfold setCommonHeader.
  apply String.eqb_neq in Hkey. now rewrite Hkey.
Qed.

(** X3. On a client driven through its interface from creation, the
    prototype of the headers object never replaced, [setCommonHeader] is
    an insertion with overwrite: a key other than [__proto__] then has
    the value set, every other key keeps its value, and setting a key
    twice is setting it to the last value.  The key [__proto__] adds no
    header: the headers of a request are what they were. *)
Theorem setCommonHeader_last_write
  (key other : string) (v v' header : value) (calls : list call) :
  forallb keeps_prototype calls = true ->
  let this := run' calls createClient in
  (key <> "__proto__" ->
   lookup key (_commonHeader (setCommonHeader key v this)) = v)
  /\ (other <> key ->
      lookup other (_commonHeader (setCommonHeader key v this))
      = lookup other (_commonHeader this))
  /\ setCommonHeader key v' (setCommonHeader key v this)
     = setCommonHeader key v' this
  /\ _getHeader (setCommonHeader "__proto__" v this) header
     = _getHeader this header.
Proof.
  intros _ this. split; [|split; [|split]].
  - intros Hkey. rewrite setCommonHeader_headers by assumption.
    now rewrite set_prop_lookup, String.eqb_refl.
  - intros Hother. unfold setCommonHeader.
    destruct (key =? "__proto__"); [reflexivity|]. simpl.
    rewrite set_prop_lookup.
    apply not_eq_sym, String.eqb_neq in Hother. now rewrite Hother.
  - unfold setCommonHeader.
    destruct (key =? "__proto__"); [reflexivity|].
    simpl. now rewrite set_prop_twice.
  - reflexivity.
Qed.

End Headers.

Lemma setCommonHeader_last_write_witness :
  let this := run true Fixture.HTTP_DEFAULT_CONFIG Fixture.HttpErrorCodeType
                [Call_setCommonHeader "Accept" (VStr "text/plain")] createClient in
  lookup "Authorization"
    (_commonHeader (setCommonHeader "Authorization" (VStr "token") this))
  = VStr "token"
  /\ lookup "Accept"
       (_commonHeader (setCommonHeader "Authorization" (VStr "token") this))
     = VStr "text/plain".
Proof.
  intros this. subst this.
  pose proof (setCommonHeader_last_write true Fixture.HTTP_DEFAULT_CONFIG
                Fixture.HttpErrorCodeType "Authorization" "Accept"
                (VStr "token") VNull VUndefined
                [Call_setCommonHeader "Accept" (VStr "text/plain")] eq_refl)
    as (Hset & Hkept & _).
  split.
  - apply Hset. discriminate.
  - rewrite Hkept by discriminate. reflexivity.
Defined.

Section Merging.

Variable HTTP_DEFAULT_CONFIG : value.
Variable HTTP_DEFAULT_REQUEST_OPTION : value.

(** X4. Precedence of the options of a request issued on a client
    initialised with [config]: a key of the call's options has the call's
    value, even when that value is [undefined]; otherwise the value given
    to [init]; otherwise that of the default configuration; otherwise
    that of the default request options. *)
Theorem request_options_precedence
  (defaults configDefaults config options : list (string * value)) (key : string) :
  HTTP_DEFAULT_REQUEST_OPTION = VObj defaults ->
  HTTP_DEFAULT_CONFIG = VObj configDefaults ->
  NoDup (List.map fst defaults) ->
  NoDup (List.map fst configDefaults) ->
  NoDup (List.map fst config) ->
  NoDup (List.map fst options) ->
  let this := init HTTP_DEFAULT_CONFIG (VObj config) createClient in
  prop (merged HTTP_DEFAULT_REQUEST_OPTION this (VObj options)) key
  = if has_own key options then lookup key options
    else if has_own key config then lookup key config
    else if has_own key configDefaults then lookup key configDefaults
    else lookup key defaults.
Proof.
  intros -> -> Hdefaults HconfigDefaults Hconfig Hoptions this.
  unfold merged, spread. simpl.
  rewrite assign_lookup by assumption. fold (has_own key options).
  destruct (has_own key options); [reflexivity|].
  assert (Hstored : NoDup (List.map fst
                             (assign (assign [] (VObj configDefaults)) (VObj config)))).
  { apply assign_NoDup, assign_NoDup. constructor. }
  rewrite (assign_lookup key _ Hstored).
  fold (has_own key (assign (assign [] (VObj configDefaults)) (VObj config))).
  rewrite !assign_has. simpl.
  rewrite (assign_lookup key _ Hconfig). fold (has_own key config).
  rewrite (assign_lookup key _ HconfigDefaults). fold (has_own key configDefaults).
  rewrite (assign_lookup key _ Hdefaults). fold (has_own key defaults).
  destruct (has_own key config); [now rewrite orb_true_r|].
  rewrite orb_false_r.
  destruct (has_own key configDefaults); [reflexivity|].
  destruct (has_own key defaults) eqn:Hown; [reflexivity|].
  simpl. symmetry. now apply lookup_absent.
Qed.

End Merging.

Lemma request_options_precedence_witness :
  let this := init Fixture.HTTP_DEFAULT_CONFIG
                (VObj [("successCode", VNum 200)]) createClient in
  let options := VObj [("observe", VUndefined)] in
  prop (merged Fixture.HTTP_DEFAULT_REQUEST_OPTION this options) "observe" = VUndefined
  /\ prop (merged Fixture.HTTP_DEFAULT_REQUEST_OPTION this options) "successCode"
     = VNum 200
  /\ prop (merged Fixture.HTTP_DEFAULT_REQUEST_OPTION this options) "timeout" = VNum 0
  /\ prop (merged Fixture.HTTP_DEFAULT_REQUEST_OPTION this options) "responseType"
     = VStr "json".
Proof.
  intros this options.
  assert (Hspec : forall key,
             prop (merged Fixture.HTTP_DEFAULT_REQUEST_OPTION this options) key
             = if has_own key [("observe", VUndefined)]
               then lookup key [("observe", VUndefined)]
               else if has_own key [("successCode", VNum 200)]
               then lookup key [("successCode", VNum 200)]
               else if has_own key [("timeout", VNum 0)]
               then lookup key [("timeout", VNum 0)]
               else lookup key
                      [("observe", VStr "body"); ("responseType", VStr "json");
                       ("responseResultKey",
                        VObj [("code", VStr "code"); ("data", VStr "data")]);
                       ("successCode", VNum 0)]).
  { intros key.
    apply (request_options_precedence Fixture.HTTP_DEFAULT_CONFIG
             Fixture.HTTP_DEFAULT_REQUEST_OPTION _ _ _ _ key eq_refl eq_refl);
      simpl; repeat constructor; simpl; intuition discriminate. }
  split; [|split; [|split]]; rewrite Hspec; reflexivity.
Defined.

(** ** What reaches the subscriber *)

Lemma In_filter_stream (predicate : value -> bool) (v : value) (s : stream) :
  In (next v) (Rx.filter_stream predicate s) ->
  In (next v) s /\ predicate v = true.
Proof.
  induction s as [|[u|e|] rest IH]; simpl; try (intros []; [discriminate|contradiction]).
  - intros [].
  - destruct (predicate u) eqn:Hu.
    + intros [[= ->]|Hin]; [now split; [left|]|].
      destruct (IH Hin). split; [now right|assumption].
    + intros Hin. destruct (IH Hin). split; [now right|assumption].
Qed.

Lemma In_map_stream (project : value -> completion value) (v : value) (s : stream) :
  In (next v) (Rx.map_stream project s) ->
  exists u, In (next u) s /\ project u = Normal v.
Proof.
  induction s as [|[u|e|] rest IH]; simpl; try (intros []; [discriminate|contradiction]).
  - intros [].
  - destruct (project u) as [r|e] eqn:Hu.
    + intros [[= ->]|Hin]; [exists u; split; [now left|assumption]|].
      destruct (IH Hin) as (u' & Hin' & Hu'). exists u'. split; [now right|assumption].
    + intros [|[]]; discriminate.
Qed.

Lemma In_catch_stream (selector : value -> Eff Observable) (this : HttpClient)
  (v : value) (s : stream) :
  In (next v) (snd (Rx.catch_stream selector this s)) ->
  In (next v) s
  \/ exists e log o, selector e = (log, Normal o) /\ In (next v) (snd (o this)).
Proof.
  induction s as [|[u|e|] rest IH]; simpl.
  - intros [].
  - destruct (Rx.catch_stream selector this rest) as [log out]. simpl in *.
    intros [[= ->]|Hin]; [left; now left|].
    destruct (IH Hin) as [Hrest|Hrecovered]; [left; now right|now right].
  - destruct (selector e) as [log [o|e']] eqn:Hselector.
    + destruct (o this) as [log' out] eqn:Ho. simpl. intros Hin.
      right. exists e, log, o. split; [exact Hselector|]. now rewrite Ho.
    + simpl. intros [|[]]; discriminate.
  - intros [|[]]; discriminate.
Qed.

Lemma catch_stream_well_formed (selector : value -> Eff Observable)
  (this : HttpClient) (s : stream) :
  (forall e log o, selector e = (log, Normal o) -> well_formed (snd (o this)) = true) ->
  well_formed (snd (Rx.catch_stream selector this s)) = true.
Proof.
  intros Hselector. induction s as [|[u|e|] rest IH]; simpl; try reflexivity.
  - now destruct (Rx.catch_stream selector this rest).
  - destruct (selector e) as [log [o|e']] eqn:He; [|reflexivity].
    specialize (Hselector e log o He). now destruct (o this).
Qed.

Lemma filter_stream_terminated (predicate : value -> bool) (s : stream) :
  existsb is_terminal s = true ->
  existsb is_terminal (Rx.filter_stream predicate s) = true.
Proof.
  induction s as [|[u|e|] rest IH]; simpl; try reflexivity; [discriminate|].
  intros Hrest. destruct (predicate u); simpl; now apply IH.
Qed.

Lemma map_stream_terminated (project : value -> completion value) (s : stream) :
  existsb is_terminal s = true ->
  existsb is_terminal (Rx.map_stream project s) = true.
Proof.
  induction s as [|[u|e|] rest IH]; simpl; try reflexivity; [discriminate|].
  intros Hrest. destruct (project u); simpl; [now apply IH|reflexivity].
Qed.

Lemma catch_stream_terminated (selector : value -> Eff Observable)
  (this : HttpClient) (s : stream) :
  (forall e log o, selector e = (log, Normal o) ->
                   existsb is_terminal (snd (o this)) = true) ->
  existsb is_terminal s = true ->
  existsb is_terminal (snd (Rx.catch_stream selector this s)) = true.
Proof.
  intros Hselector. induction s as [|[u|e|] rest IH]; simpl; try reflexivity;
    [discriminate| |].
  - intros Hrest. destruct (Rx.catch_stream selector this rest). simpl in *.
    now apply IH.
  - intros _. destruct (selector e) as [log [o|e']] eqn:He; [|reflexivity].
    specialize (Hselector e log o He). now destruct (o this).
Qed.

(** A well-formed stream that holds a terminal notification is a run of
    values followed by that notification. *)
Lemma well_formed_terminated (s : stream) :
  well_formed s = true -> existsb is_terminal s = true ->
  exists values t, s = List.map next values ++ [t] /\ is_terminal t = true.
Proof.
  induction s as [|[u|e|] rest IH]; simpl; [discriminate| | |].
  - intros Hwf Hterminal. destruct (IH Hwf Hterminal) as (values & t & -> & Ht).
    now exists (u :: values), t.
  - intros Hwf _. destruct rest; [|discriminate]. now exists [], (error e).
  - intros Hwf _. destruct rest; [|discriminate]. now exists [], complete.
Qed.

Lemma count_requests_app (log log' : list effect) :
  count_requests (log ++ log') = count_requests log + count_requests log'.
Proof.
  induction log as [|[config|v|h t e o] rest IH]; simpl; [reflexivity| | |];
    now rewrite IH.
Qed.

(** The callbacks made by [listen] perform no transport call. *)
Lemma emit_listening (topic : value) (args : list value) (bus : PubSub.t) :
  listening bus -> count_requests (fst (PubSub.emit topic args bus)) = 0.
Proof.
  induction 1 as [|[registered cb] rest (type & handle & Hcb) _ IH]; simpl;
    [reflexivity|].
  destruct (strict_eq registered topic); [|exact IH].
  simpl in Hcb. subst cb. unfold listener, call_handler, bind, perform. simpl.
  destruct (handler_throws handle type (nth 0 args VUndefined) (nth 1 args VUndefined));
    simpl; [reflexivity|].
  destruct (PubSub.emit topic args rest) as [log r]. simpl in *. exact IH.
Qed.

Lemma is_result_not_progress (v : value) :
  is_result v = true -> is_progress v = false.
Proof. now destruct v. Qed.

Section Delivery.

Variable inherited : value -> string -> value.
Variable clear_is_bound : bool.
Variable HTTP_DEFAULT_CONFIG : value.
Variable HTTP_DEFAULT_REQUEST_OPTION : value.
Variable HttpErrorCodeType : list (string * value).
Variable HttpObserveType : list (string * value).
Variable status : value -> Z.
Variable Axios_request : AxiosRequestConfig -> exchange.

Local Abbreviation request' :=
  (request inherited HTTP_DEFAULT_REQUEST_OPTION HttpErrorCodeType
     HttpObserveType status Axios_request).
Local Abbreviation executor := (_request Axios_request).
Local Abbreviation filter' := (request_filter HttpObserveType).
Local Abbreviation map' := (request_map inherited HttpObserveType).
Local Abbreviation catch' := (request_catch HttpErrorCodeType status).
Local Abbreviation classifier := (_handleResponseError HttpErrorCodeType status).
Local Abbreviation Event := (HttpObserveType_Event HttpObserveType).
Local Abbreviation Body := (HttpObserveType_Body HttpObserveType).
Local Abbreviation merged' := (merged HTTP_DEFAULT_REQUEST_OPTION).
Local Abbreviation upstream' := (upstream inherited HttpObserveType Axios_request).
Local Abbreviation run' := (run clear_is_bound HTTP_DEFAULT_CONFIG HttpErrorCodeType).

Lemma request_observable (method url : string) (options : value)
  (this : HttpClient) (observable : Observable) :
  request' method url options this = Normal observable ->
  observable = Rx.catchError (catch' (merged' this options))
                 (upstream' method url (merged' this options)).
Proof.
  unfold request. destruct (_inited this); simpl; [|discriminate].
  now intros [= <-].
Qed.

(** The recovery stage answers with the failure value or throws. *)
Lemma catch_answer (options : value) (this : HttpClient) (e : value)
  (log : list effect) (o : Observable) :
  catch' options this e = (log, Normal o) -> o = Rx.of_value (failure e).
Proof.
  unfold request_catch, bind.
  destruct (match e with
            | HttpResponseError _ _ => classifier this e options
            | _ => perform (ConsoleError e)
            end) as [log0 [[]|thrown]]; simpl; [|discriminate].
  now intros [= _ <-].
Qed.

(** The mapping stage either wraps (in body mode) or returns its input. *)
Lemma map_answer (options u v : value) :
  map' options u = Normal v ->
  (strict_eq (prop options "observe") Body = true /\ is_result v = true)
  \/ (strict_eq (prop options "observe") Body = false /\ v = u).
Proof.
  unfold request_map, request_map_with.
  destruct (strict_eq (prop options "observe") Body); [|intros [= <-]; now right].
  destruct (Get u "data") as [data|e]; simpl; [|discriminate].
  destruct (strict_eq (prop options "responseType") (VStr "json")
            && (typeof data =? "object")).
  - destruct (_handleJsonResponse inherited data u options) as [result|e]; simpl; [|discriminate].
    destruct result; try discriminate; intros [= <-]; now left.
  - intros [= <-]. now left.
Qed.

(** The values delivered by the observable of [request]. *)
Lemma delivered_values (method url : string) (options : value)
  (this subscription : HttpClient) (observable : Observable) (v : value) :
  request' method url options this = Normal observable ->
  In (next v) (snd (subscribe observable subscription)) ->
  (exists e, v = failure e)
  \/ exists u,
      In (next u) (snd (subscribe (executor method url (merged' this options))
                          subscription))
      /\ filter' (merged' this options) u = true
      /\ map' (merged' this options) u = Normal v.
Proof.
  intros Hrequest. rewrite (request_observable _ _ _ _ _ Hrequest).
  rewrite subscribe_pipeline. simpl. intros Hin.
  apply In_catch_stream in Hin as [Hin|(e & log & o & Hcatch & Hin)].
  - right. unfold subscribe, upstream, Rx.map, Rx.filter in Hin.
    unfold subscribe.
    destruct (executor method url (merged' this options) subscription) as [log s].
    simpl in *. apply In_map_stream in Hin as (u & Hin & Hu).
    apply In_filter_stream in Hin as [Hin Hpass]. now exists u.
  - left. apply catch_answer in Hcatch. subst o. simpl in Hin.
    destruct Hin as [[= <-]|[|[]]]; [now exists e|discriminate].
Qed.

(** X5. The filter stage never drops a value that is not a progress
    event, and unless the merged options have [observe] equal to [Event]
    no progress event reaches a subscriber of [request]. *)
Theorem progress_only_in_event_mode
  (method url : string) (options : value) (this : HttpClient)
  (observable : Observable) :
  request' method url options this = Normal observable ->
  (forall opts response,
      is_progress response = false -> filter' opts response = true)
  /\ (strict_eq (prop (merged' this options) "observe") Event = false ->
      forall subscription v,
        In (next v) (snd (subscribe observable subscription)) ->
        is_progress v = false).
Proof.
  intros Hrequest. split.
  - intros opts response Hplain. unfold request_filter.
    destruct (negb (strict_eq (prop opts "observe") Event)); [|reflexivity].
    now destruct response.
  - intros Hmode subscription v Hin.
    destruct (delivered_values _ _ _ _ _ _ _ Hrequest Hin)
      as [[e ->]|(u & _ & Hpass & Hmap)]; [reflexivity|].
    apply map_answer in Hmap as [[_ Hresult]|[_ ->]].
    + now apply is_result_not_progress.
    + unfold request_filter in Hpass. rewrite Hmode in Hpass. simpl in Hpass.
      now destruct u.
Qed.

(** X6. When the merged options have [observe] equal to [Body], every
    value a subscriber of [request] receives is an object [{result,
    response, isSuccess}] whose flag is a boolean. *)
Theorem body_mode_wraps
  (method url : string) (options : value) (this : HttpClient)
  (observable : Observable) :
  request' method url options this = Normal observable ->
  strict_eq (prop (merged' this options) "observe") Body = true ->
  forall subscription v,
    In (next v) (snd (subscribe observable subscription)) ->
    is_result v = true.
Proof.
  intros Hrequest Hmode subscription v Hin.
  destruct (delivered_values _ _ _ _ _ _ _ Hrequest Hin)
    as [[e ->]|(u & _ & _ & Hmap)]; [reflexivity|].
  apply map_answer in Hmap as [[_ Hresult]|[Hother _]]; [assumption|congruence].
Qed.

Lemma relay_terminated (x : exchange) (options : value) :
  settled x <> unsettled -> existsb is_terminal (relay x options) = true.
Proof.
  intros Hsettled. unfold relay. rewrite existsb_app.
  destruct (settled x); simpl; try now rewrite orb_true_r.
  now destruct Hsettled.
Qed.

Lemma executor_terminated (method url : string) (options : value)
  (this : HttpClient) :
  (forall config, settled (Axios_request config) <> unsettled) ->
  existsb is_terminal (snd (subscribe (executor method url options) this)) = true.
Proof.
  intros Hsettles. unfold subscribe, _request, Rx.create.
  destruct (url =? ""); [reflexivity|].
  destruct (_isValidMethod method); [|reflexivity]. simpl.
  destruct (Get (default_arg options (VObj [])) "params"); [|reflexivity].
  simpl.
  destruct (Get (default_arg options (VObj [])) "header"); [|reflexivity].
  simpl. apply relay_terminated, Hsettles.
Qed.

Lemma upstream_terminated (method url : string) (options : value)
  (this : HttpClient) :
  (forall config, settled (Axios_request config) <> unsettled) ->
  existsb is_terminal (snd (subscribe (upstream' method url options) this)) = true.
Proof.
  intros Hsettles.
  pose proof (executor_terminated method url options this Hsettles) as Hexecutor.
  unfold subscribe, upstream, Rx.map, Rx.filter in *.
  destruct (executor method url options this) as [log s]. simpl in *.
  now apply map_stream_terminated, filter_stream_terminated.
Qed.

(** X7. The stream a subscriber of [request] receives is well formed:
    nothing follows a completion or an error.  When the transport settles
    every call, the stream is a run of values followed by exactly one
    terminal notification, which is the completion when no callback of
    the bus throws. *)
Theorem request_single_terminal
  (method url : string) (options : value) (this subscription : HttpClient)
  (observable : Observable) :
  request' method url options this = Normal observable ->
  well_formed (snd (subscribe observable subscription)) = true
  /\ ((forall config, settled (Axios_request config) <> unsettled) ->
      exists values t,
        snd (subscribe observable subscription) = List.map next values ++ [t]
        /\ is_terminal t = true
        /\ (quiet (_pubsub subscription) -> t = complete)).
Proof.
  intros Hrequest. rewrite (request_observable _ _ _ _ _ Hrequest).
  rewrite subscribe_pipeline. simpl.
  assert (Hwf : well_formed
                  (snd (Rx.catch_stream (catch' (merged' this options) subscription)
                          subscription
                          (snd (subscribe (upstream' method url (merged' this options))
                                  subscription)))) = true).
  { apply catch_stream_well_formed. intros e log o Hcatch.
    apply catch_answer in Hcatch. now subst o. }
  split; [exact Hwf|]. intros Hsettles.
  assert (Hterminal : existsb is_terminal
                        (snd (Rx.catch_stream (catch' (merged' this options) subscription)
                                subscription
                                (snd (subscribe
                                        (upstream' method url (merged' this options))
                                        subscription)))) = true).
  { apply catch_stream_terminated; [|now apply upstream_terminated].
    intros e log o Hcatch. apply catch_answer in Hcatch. now subst o. }
  destruct (well_formed_terminated _ Hwf Hterminal) as (values & t & Hshape & Ht).
  exists values, t. split; [assumption|]. split; [assumption|].
  intros Hquiet.
  pose proof (catch_stream_recovers _ subscription
                (snd (subscribe (upstream' method url (merged' this options))
                        subscription))
                (catch_quiet HttpErrorCodeType status (merged' this options)
                   subscription Hquiet)) as Hclean.
  rewrite Hshape, existsb_app in Hclean. simpl in Hclean.
  apply orb_false_elim in Hclean as [_ Hclean].
  destruct t as [v|e|]; [discriminate|discriminate|reflexivity].
Qed.

Lemma listen_loop_listening (handle : handler) (keys : list string) :
  forall bus,
    listening bus ->
    listening (listen_loop HttpErrorCodeType keys handle bus).
Proof.
  induction keys as [|key rest IH]; intros bus Hbus; simpl; [assumption|].
  apply IH. unfold PubSub.on. apply Forall_app. split; [assumption|].
  constructor; [|constructor]. simpl. now eexists; eexists.
Qed.

Lemma run_listening (calls : list call) :
  forall this, listening (_pubsub this) -> listening (_pubsub (run' calls this)).
Proof.
  induction calls as [|c rest IH]; intros this Hbus; simpl; [assumption|].
  apply IH. destruct c; simpl; try assumption.
  - unfold init. now destruct (_inited this).
  - unfold setCommonHeader. now destruct (key =? "__proto__").
  - now apply listen_loop_listening.
  - destruct clear_is_bound; [constructor|assumption].
Qed.

Lemma catch_requests (options : value) (this : HttpClient) (e : value) :
  listening (_pubsub this) -> count_requests (fst (catch' options this e)) = 0.
Proof.
  intros Hbus. unfold request_catch.
  set (first := match e with
                | HttpResponseError _ _ => classifier this e options
                | _ => perform (ConsoleError e)
                end).
  assert (Hfirst : count_requests (fst first) = 0).
  { subst first. destruct e; try reflexivity. unfold _handleResponseError.
    now apply emit_listening. }
  clearbody first. unfold bind.
  destruct first as [log [[]|thrown]]; simpl in *; [|assumption].
  now rewrite app_nil_r.
Qed.

Lemma catch_stream_requests (options : value) (this : HttpClient) (s : stream) :
  listening (_pubsub this) ->
  count_requests (fst (Rx.catch_stream (catch' options this) this s)) = 0.
Proof.
  intros Hbus. induction s as [|[u|e|] rest IH]; simpl; try reflexivity.
  - now destruct (Rx.catch_stream (catch' options this) this rest).
  - pose proof (catch_requests options this e Hbus) as Hlog.
    destruct (catch' options this e) as [log [o|thrown]] eqn:Hcatch;
      simpl in *; [|assumption].
    apply catch_answer in Hcatch. subst o. simpl. now rewrite app_nil_r.
Qed.


End Delivery.


Lemma progress_only_in_event_mode_witness :
  let observable :=
    Rx.catchError
      (request_catch Fixture.HttpErrorCodeType Fixture.status
         (merged Fixture.HTTP_DEFAULT_REQUEST_OPTION Fixture.client VUndefined))
      (upstream Fixture.inherited Fixture.HttpObserveType Fixture.online "get" "/api"
         (merged Fixture.HTTP_DEFAULT_REQUEST_OPTION Fixture.client VUndefined)) in
  let raw :=
    VObj [("status", VNum 200);
          ("data", VObj [("code", VNum 0); ("data", VObj [("v", VNum 1)])])] in
  snd (subscribe observable Fixture.client)
  = [next (success (VObj [("v", VNum 1)]) raw); complete]
  /\ is_progress (success (VObj [("v", VNum 1)]) raw) = false.
Proof.
  intros observable raw. split; [reflexivity|].
  apply (proj2 (progress_only_in_event_mode Fixture.inherited Fixture.HTTP_DEFAULT_REQUEST_OPTION
                  Fixture.HttpErrorCodeType Fixture.HttpObserveType Fixture.status
                  Fixture.online "get" "/api" VUndefined Fixture.client observable
                  eq_refl) eq_refl Fixture.client).
  left. reflexivity.
Defined.

Lemma body_mode_wraps_witness :
  let observable :=
    Rx.catchError
      (request_catch Fixture.HttpErrorCodeType Fixture.status
         (merged Fixture.HTTP_DEFAULT_REQUEST_OPTION Fixture.client VUndefined))
      (upstream Fixture.inherited Fixture.HttpObserveType Fixture.offline "get" "/api"
         (merged Fixture.HTTP_DEFAULT_REQUEST_OPTION Fixture.client VUndefined)) in
  let err :=
    HttpResponseError (VObj [("message", VStr "Network Error")])
      (merged Fixture.HTTP_DEFAULT_REQUEST_OPTION Fixture.client VUndefined) in
  snd (subscribe observable Fixture.client_faulty) = [error (JsError "listener failed")]
  /\ snd (subscribe observable Fixture.client_recording)
     = [next (failure err); complete]
  /\ is_result (failure err) = true.
Proof.
  intros observable err. split; [reflexivity|]. split; [reflexivity|].
  apply (body_mode_wraps Fixture.inherited Fixture.HTTP_DEFAULT_REQUEST_OPTION
           Fixture.HttpErrorCodeType Fixture.HttpObserveType Fixture.status
           Fixture.offline "get" "/api" VUndefined Fixture.client observable
           eq_refl eq_refl Fixture.client_recording).
  left. reflexivity.
Defined.

Lemma request_single_terminal_witness :
  let observable :=
    Rx.catchError
      (request_catch Fixture.HttpErrorCodeType Fixture.status
         (merged Fixture.HTTP_DEFAULT_REQUEST_OPTION Fixture.client
            (VObj [("observe", VStr "event")])))
      (upstream Fixture.inherited Fixture.HttpObserveType Fixture.online "get" "/api"
         (merged Fixture.HTTP_DEFAULT_REQUEST_OPTION Fixture.client
            (VObj [("observe", VStr "event")]))) in
  well_formed (snd (subscribe observable Fixture.client_recording)) = true
  /\ exists values t,
      snd (subscribe observable Fixture.client_recording) = List.map next values ++ [t]
      /\ t = complete.
Proof.
  intros observable.
  destruct (request_single_terminal Fixture.inherited Fixture.HTTP_DEFAULT_REQUEST_OPTION
              Fixture.HttpErrorCodeType Fixture.HttpObserveType Fixture.status
              Fixture.online "get" "/api" (VObj [("observe", VStr "event")])
              Fixture.client Fixture.client_recording observable eq_refl)
    as [Hwf Hends].
  split; [exact Hwf|].
  destruct Hends as (values & t & Hshape & _ & Hcomplete); [discriminate|].
  exists values, t. split; [exact Hshape|].
  apply Hcomplete, recording_bus_quiet.
Defined.


(** ** A fulfilled request, end to end *)

Section Fulfilled.

Variable inherited : value -> string -> value.
Variable HTTP_DEFAULT_REQUEST_OPTION : value.
Variable HttpErrorCodeType : list (string * value).
Variable HttpObserveType : list (string * value).
Variable status : value -> Z.
Variable Axios_request : AxiosRequestConfig -> exchange.

Local Abbreviation request' :=
  (request inherited HTTP_DEFAULT_REQUEST_OPTION HttpErrorCodeType
     HttpObserveType status Axios_request).
Local Abbreviation executor := (_request Axios_request).
Local Abbreviation filter' := (request_filter HttpObserveType).
Local Abbreviation map' := (request_map inherited HttpObserveType).
Local Abbreviation catch' := (request_catch HttpErrorCodeType status).
Local Abbreviation classifier := (_handleResponseError HttpErrorCodeType status).
Local Abbreviation Event := (HttpObserveType_Event HttpObserveType).
Local Abbreviation Body := (HttpObserveType_Body HttpObserveType).
Local Abbreviation merged' := (merged HTTP_DEFAULT_REQUEST_OPTION).
Local Abbreviation upstream' := (upstream inherited HttpObserveType Axios_request).

Lemma executor_run (method url : string) (props : list (string * value))
  (this : HttpClient) :
  url <> "" -> In method valid_methods ->
  exists config,
    subscribe (executor method url (VObj props)) this
    = ([AxiosRequest config], relay (Axios_request config) (VObj props)).
Proof.
  intros Hurl Hmethod. eexists.
  unfold subscribe, _request, Rx.create.
  apply String.eqb_neq in Hurl. rewrite Hurl.
  apply isValidMethod_In in Hmethod. rewrite Hmethod. simpl. reflexivity.
Qed.

(** Outside event mode, of what a fulfilled call relays only the response
    and the completion pass the filter. *)
Lemma filter_relay (options relayed : value) (x : exchange) (response : value) :
  strict_eq (prop options "observe") Event = false ->
  settled x = fulfilled response ->
  is_progress response = false ->
  Rx.filter_stream (filter' options) (relay x relayed) = [next response; complete].
Proof.
  intros Hmode Hsettled Hplain. unfold relay. rewrite Hsettled.
  induction (reported x) as [|p rest IH]; simpl.
  - unfold request_filter. rewrite Hmode. simpl.
    destruct response; try reflexivity; discriminate.
  - unfold request_filter at 1. rewrite Hmode. simpl. now destruct p.
Qed.

(** The run of a request whose transport call is fulfilled, in terms of
    what the mapping stage makes of the response. *)
Lemma fulfilled_run (method url : string) (options : value)
  (this subscription : HttpClient) (response : value) :
  _inited this = true ->
  url <> "" -> In method valid_methods ->
  (forall config, settled (Axios_request config) = fulfilled response) ->
  is_progress response = false ->
  strict_eq (prop (merged' this options) "observe") Event = false ->
  exists observable config,
    request' method url options this = Normal observable
    /\ subscribe observable subscription
       = match map' (merged' this options) response with
         | Normal r => ([AxiosRequest config], [next r; complete])
         | Throw e =>
             match catch' (merged' this options) subscription e with
             | (log, Normal _) =>
                 (AxiosRequest config :: log, [next (failure e); complete])
             | (log, Throw thrown) => (AxiosRequest config :: log, [error thrown])
             end
         end.
Proof.
  intros Hinited Hurl Hmethod Hfulfilled Hplain Hmode.
  destruct (executor_run method url
              (fold_left assign
                 [HTTP_DEFAULT_REQUEST_OPTION; _config this;
                  default_arg options (VObj [])] [])
              subscription Hurl Hmethod) as [config Hrun].
  eexists. exists config. split; [now apply request_initialized|].
  rewrite subscribe_pipeline.
  assert (Hupstream :
            subscribe (upstream' method url (merged' this options)) subscription
            = ([AxiosRequest config],
               Rx.map_stream (map' (merged' this options)) [next response; complete])).
  { unfold subscribe in *. unfold upstream, Rx.map, Rx.filter.
    unfold merged, spread in *. rewrite Hrun.
    now rewrite (filter_relay _ _ _ response Hmode (Hfulfilled config) Hplain). }
  rewrite Hupstream. simpl.
  destruct (map' (merged' this options) response) as [r|e]; simpl; [reflexivity|].
  destruct (catch' (merged' this options) subscription e) as [log [o|thrown]] eqn:Hcatch;
    [|reflexivity].
  apply catch_answer in Hcatch. subst o. simpl. now rewrite app_nil_r.
Qed.




End Fulfilled.





(** ** The interpreter without success codes *)

(** X12. With a key descriptor but no success code, that is with
    [successCode] left [undefined] or given as an empty array, the
    interpreter returns the [HttpResponseError] for every body: no
    response can then succeed. *)
Theorem interpreter_without_success_code
  (inherited : value -> string -> value)
  (json response options responseKey : value) :
  Get options "responseResultKey" = Normal responseKey ->
  nullish responseKey = false ->
  prop options "successCode" = VUndefined \/ prop options "successCode" = VArr [] ->
  _handleJsonResponse inherited json response options
  = Normal (HttpResponseError response options).
Proof.
  intros Hkey Hdescriptor Hcodes.
  assert (Hoptions : nullish options = false).
  { unfold Get in Hkey. now destruct (nullish options). }
  unfold _handleJsonResponse. rewrite Hkey. cbn [bindC].
  unfold Get. rewrite Hoptions, Hdescriptor. cbn [bindC].
  rewrite normalized_success_codes, typeof_undefined, negb_involutive.
  destruct Hcodes as [-> | ->]; simpl.
  - destruct (member inherited json (ToString (prop responseKey "code"))); simpl;
      now rewrite ?andb_false_r.
  - now rewrite andb_false_r.
Qed.

Lemma interpreter_without_success_code_witness :
  let options :=
    VObj [("responseResultKey", VObj [("code", VStr "code"); ("data", VStr "data")])] in
  let body := VObj [("code", VNum 0); ("data", VStr "ok")] in
  _handleJsonResponse Fixture.inherited body VNull options
  = Normal (HttpResponseError VNull options).
Proof.
  intros options body.
  apply (interpreter_without_success_code Fixture.inherited body VNull options
           (VObj [("code", VStr "code"); ("data", VStr "data")]));
    [reflexivity|reflexivity|now left].
Defined.

(** ** The verb shortcuts *)

Lemma set_prop_fresh (key : string) (v : value) (props : list (string * value)) :
  has_own key props = false -> set_prop key v props = props ++ [(key, v)].
Proof.
  unfold has_own. induction props as [|[k x] rest IH]; simpl; [reflexivity|].
  rewrite (String.eqb_sym key k). destruct (k =? key); simpl; [discriminate|].
  intros Hrest. now rewrite IH.
Qed.

(** Copying an object into an empty one gives the object back. *)
Lemma assign_nil (props : list (string * value)) :
  NoDup (List.map fst props) -> assign [] (VObj props) = props.
Proof.
  unfold assign. simpl.
  assert (Hgen : forall target,
             NoDup (List.map fst (target ++ props)) ->
             fold_left (fun acc kv => set_prop (fst kv) (snd kv) acc) props target
             = target ++ props).
  { induction props as [|[k v] rest IH]; intros target Hnd; simpl.
    - now rewrite app_nil_r.
    - rewrite set_prop_fresh.
      + rewrite IH; rewrite <- app_assoc; [reflexivity|assumption].
      + destruct (has_own k target) eqn:Hown; [|reflexivity].
        apply has_own_In in Hown. rewrite map_app in Hnd. simpl in Hnd.
        apply NoDup_remove_2 in Hnd. exfalso. apply Hnd.
        apply in_or_app. now left. }
  intros Hnd. now apply (Hgen []).
Qed.

Lemma spread_with (key : string) (v : value) (props : list (string * value)) :
  NoDup (List.map fst props) ->
  spread [VObj props; VObj [(key, v)]] = VObj (set_prop key v props).
Proof. intros Hnd. unfold spread. simpl. now rewrite assign_nil. Qed.

Lemma merged_other_option (defaults : value) (this : HttpClient)
  (key k : string) (v : value) (props : list (string * value)) :
  NoDup (List.map fst props) -> key <> k ->
  prop (merged defaults this (VObj (set_prop k v props))) key
  = prop (merged defaults this (VObj props)) key.
Proof.
  intros Hnd Hother. unfold merged, spread. simpl.
  rewrite !assign_lookup by (try apply set_prop_NoDup; assumption).
  fold (has_own key (set_prop k v props)) (has_own key props).
  rewrite set_prop_has, set_prop_lookup.
  apply String.eqb_neq in Hother. rewrite Hother. simpl.
  rewrite String.eqb_sym in Hother. now rewrite Hother.
Qed.

Section Verbs.

Variable inherited : value -> string -> value.
Variable HTTP_DEFAULT_REQUEST_OPTION : value.
Variable HttpErrorCodeType : list (string * value).
Variable HttpObserveType : list (string * value).
Variable status : value -> Z.
Variable Axios_request : AxiosRequestConfig -> exchange.

Local Abbreviation request' :=
  (request inherited HTTP_DEFAULT_REQUEST_OPTION HttpErrorCodeType
     HttpObserveType status Axios_request).
Local Abbreviation merged' := (merged HTTP_DEFAULT_REQUEST_OPTION).
Local Abbreviation get' :=
  (get inherited HTTP_DEFAULT_REQUEST_OPTION HttpErrorCodeType
     HttpObserveType status Axios_request).
Local Abbreviation put' :=
  (put inherited HTTP_DEFAULT_REQUEST_OPTION HttpErrorCodeType
     HttpObserveType status Axios_request).
Local Abbreviation delete' :=
  (delete inherited HTTP_DEFAULT_REQUEST_OPTION HttpErrorCodeType
     HttpObserveType status Axios_request).
Local Abbreviation post' :=
  (post inherited HTTP_DEFAULT_REQUEST_OPTION HttpErrorCodeType
     HttpObserveType status Axios_request).

(** The first effect of a subscription to a valid request is the transport
    call, made with the method given and with the body of the merged
    options. *)
Lemma request_call (verb address : string) (options : value)
  (this subscription : HttpClient) :
  _inited this = true -> address <> "" -> In verb valid_methods ->
  exists observable config rest,
    request' verb address options this = Normal observable
    /\ fst (subscribe observable subscription) = AxiosRequest config :: rest
    /\ method config = verb
    /\ data config = prop (merged' this options) "body".
Proof.
  intros Hinited Haddress Hverb. eexists. eexists. eexists.
  split; [now apply request_initialized|].
  rewrite subscribe_pipeline.
  unfold subscribe, upstream, Rx.map, Rx.filter, _request, Rx.create.
  apply String.eqb_neq in Haddress. rewrite Haddress.
  apply isValidMethod_In in Hverb. rewrite Hverb.
  unfold merged, spread. simpl.
  split; [reflexivity|]. now split.
Qed.


End Verbs.


(** ** Listeners *)

Lemma bind_ret_unit (k : unit -> Eff unit) : bind (ret tt) k = k tt.
Proof. unfold bind, ret. now destruct (k tt). Qed.

Lemma bind_assoc {A B C : Type} (m : Eff A) (f : A -> Eff B) (g : B -> Eff C) :
  bind (bind m f) g = bind m (fun a => bind (f a) g).
Proof.
  unfold bind. destruct m as [log [a|e]]; [|reflexivity].
  destruct (f a) as [log' [b|e]]; [|reflexivity].
  destruct (g b) as [log'' r]. now rewrite app_assoc.
Qed.

(** Emitting on a bus made of two parts: the older registrations first. *)
Lemma emit_app (topic : value) (args : list value) (older newer : PubSub.t) :
  PubSub.emit topic args (older ++ newer)
  = PubSub.emit topic args older ;;; PubSub.emit topic args newer.
Proof.
  induction older as [|[registered cb] rest IH]; cbn [PubSub.emit app].
  - now rewrite bind_ret_unit.
  - destruct (strict_eq registered topic); [|exact IH].
    now rewrite bind_assoc, IH.
Qed.

Section Listeners.

Variable HttpErrorCodeType : list (string * value).

(** The registrations one [listen] call makes. *)
Lemma listen_loop_app (handle : handler) (keys : list string) :
  forall bus,
    listen_loop HttpErrorCodeType keys handle bus
    = bus ++ List.map (fun key => (lookup key HttpErrorCodeType,
                                   listener (lookup key HttpErrorCodeType) handle))
               keys.
Proof.
  induction keys as [|key rest IH]; intros bus; simpl.
  - now rewrite app_nil_r.
  - rewrite IH. unfold PubSub.on. now rewrite <- app_assoc.
Qed.

Lemma emit_listeners (handle : handler) (topic err options : value)
  (keys : list string) :
  (forall t e o, handler_throws handle t e o = None) ->
  PubSub.emit topic [err; options]
    (List.map (fun key => (lookup key HttpErrorCodeType,
                           listener (lookup key HttpErrorCodeType) handle)) keys)
  = (repeat (Called (handler_id handle) topic err options)
       (length (List.filter
                  (fun key => strict_eq (lookup key HttpErrorCodeType) topic) keys)),
     Normal tt).
Proof.
  intros Hreturns. induction keys as [|key rest IH]; simpl; [reflexivity|].
  destruct (strict_eq (lookup key HttpErrorCodeType) topic) eqn:Htopic; [|exact IH].
  apply strict_eq_eq in Htopic. rewrite IH, Htopic.
  unfold listener, call_handler, bind, perform. simpl. now rewrite Hreturns.
Qed.

(** X14. After [listen(handle)], with a handler that returns, an emission
    on a topic first runs the callbacks registered before, and if they
    all return it then calls [handle(topic, err, options)] once for every
    member of the classification enum whose value is the topic; if one of
    the earlier callbacks throws, the new handler is not called at all. *)
Theorem listen_delivers
  (handle : handler) (this : HttpClient) (topic err options : value) :
  (forall t e o, handler_throws handle t e o = None) ->
  let before := PubSub.emit topic [err; options] (_pubsub this) in
  let after :=
    PubSub.emit topic [err; options]
      (_pubsub (fst (listen HttpErrorCodeType handle this))) in
  (snd before = Normal tt ->
   after
   = (fst before
      ++ repeat (Called (handler_id handle) topic err options)
           (length (List.filter
                      (fun key => strict_eq (lookup key HttpErrorCodeType) topic)
                      (List.map fst HttpErrorCodeType))),
      Normal tt))
  /\ (forall thrown, snd before = Throw thrown -> after = before).
Proof.
  intros Hreturns before after. unfold after. simpl.
  rewrite listen_loop_app, emit_app, emit_listeners by assumption.
  fold before. unfold bind. destruct before as [log [[]|e]]; simpl; split;
    try discriminate; reflexivity.
Qed.

End Listeners.

Lemma listen_delivers_witness :
  let err := HttpResponseError VNull (VObj []) in
  let twice :=
    fst (listen Fixture.HttpErrorCodeType Fixture.recorder Fixture.client_recording) in
  PubSub.emit (VStr "offline") [err; VObj []] (_pubsub twice)
  = ([Called 1 (VStr "offline") err (VObj []);
      Called 1 (VStr "offline") err (VObj [])], Normal tt).
Proof.
  intros err twice. unfold twice.
  rewrite (proj1 (listen_delivers Fixture.HttpErrorCodeType Fixture.recorder
                    Fixture.client_recording (VStr "offline") err (VObj [])
                    (fun _ _ _ => eq_refl))).
  - reflexivity.
  - reflexivity.
Defined.

(** ** Separators of the query string *)

Lemma count_char_app (c : ascii) (a b : string) :
  count_char c (a ++ b) = count_char c a + count_char c b.
Proof.
  induction a as [|c' rest IH]; simpl; [reflexivity|].
  rewrite IH. now rewrite Nat.add_assoc.
Qed.

Lemma hex_digit_unreserved (n : nat) : unreserved (hex_digit n) = true.
Proof.
  unfold hex_digit.
  do 16 (destruct n as [|n]; [reflexivity|]). simpl. now destruct n.
Qed.

(** An encoded string holds only unreserved characters and [%]. *)
Lemma encodeURIComponent_alphabet (c : ascii) (s : string) :
  unreserved c = false -> c <> "%"%char ->
  count_char c (encodeURIComponent s) = 0.
Proof.
  intros Hreserved Hpercent.
  assert (Hother : forall c', unreserved c' = true -> Ascii.eqb c' c = false).
  { intros c' Hc'. destruct (Ascii.eqb_spec c' c) as [->|_]; [congruence|reflexivity]. }
  induction s as [|c0 rest IH]; [reflexivity|].
  cbn [encodeURIComponent]. destruct (unreserved c0) eqn:Hc0; cbv zeta;
    cbn [count_char].
  - now rewrite (Hother c0 Hc0), IH.
  - rewrite (Hother (hex_digit (nat_of_ascii c0 / 16))),
      (Hother (hex_digit (nat_of_ascii c0 mod 16)))
      by apply hex_digit_unreserved.
    rewrite IH.
    destruct (Ascii.eqb_spec "%"%char c) as [Heq|_]; [now destruct Hpercent|reflexivity].
Qed.

Lemma query_pair_separators (kv : string * value) :
  count_char "="%char (query_pair kv) = 1
  /\ forall c, unreserved c = false -> c <> "%"%char -> c <> "="%char ->
               count_char c (query_pair kv) = 0.
Proof.
  unfold query_pair. split.
  - rewrite !count_char_app, !encodeURIComponent_alphabet by (reflexivity || discriminate).
    reflexivity.
  - intros c Hreserved Hpercent Hequal.
    rewrite !count_char_app, !encodeURIComponent_alphabet by assumption.
    cbn [count_char].
    destruct (Ascii.eqb_spec "="%char c) as [Heq|_]; [now destruct Hequal|reflexivity].
Qed.

Lemma concat_separators (c : ascii) (pairs : list string) (each : nat) :
  (forall pair, In pair pairs -> count_char c pair = each) ->
  count_char c (String.concat "&" pairs)
  = each * length pairs
    + (if Ascii.eqb "&"%char c then pred (length pairs) else 0).
Proof.
  induction pairs as [|pair rest IH]; intros Heach.
  - cbn [String.concat count_char length]. destruct (Ascii.eqb "&"%char c); lia.
  - destruct rest as [|pair' rest'].
    + cbn [String.concat length]. rewrite (Heach pair) by now left.
      destruct (Ascii.eqb "&"%char c); simpl; lia.
    + change (String.concat "&" (pair :: pair' :: rest'))
        with (pair ++ "&" ++ String.concat "&" (pair' :: rest'))%string.
      rewrite !count_char_app, (Heach pair) by now left.
      rewrite IH by (intros p Hp; apply Heach; now right).
      cbn [count_char length]. destruct (Ascii.eqb "&"%char c); simpl; lia.
Qed.

Lemma convertParam_pairs (props : list (string * value)) :
  NoDup (List.map fst props) ->
  _convertParam (VObj props)
  = String.concat "&"
      (List.map query_pair (List.filter (fun kv => defined (snd kv)) props)).
Proof.
  intros Hnd. unfold _convertParam, Object_keys. simpl.
  f_equal. apply convert_loop_pairs. now apply lookup_own.
Qed.

(** X15. In the query string of a mapping with [n] values that are not
    [undefined], [=] occurs exactly [n] times and [&] exactly [n - 1]
    times (none when [n] is 0), and no [?], [#], [/] or space occurs:
    whatever the keys and values hold, they add no separator of their
    own. *)
Theorem convertParam_separators (props : list (string * value)) :
  NoDup (List.map fst props) ->
  let n := length (List.filter (fun kv => defined (snd kv)) props) in
  count_char "="%char (_convertParam (VObj props)) = n
  /\ count_char "&"%char (_convertParam (VObj props)) = pred n
  /\ count_char "?"%char (_convertParam (VObj props)) = 0
  /\ count_char "#"%char (_convertParam (VObj props)) = 0
  /\ count_char "/"%char (_convertParam (VObj props)) = 0
  /\ count_char " "%char (_convertParam (VObj props)) = 0.
Proof.
  intros Hnd n. rewrite convertParam_pairs by assumption.
  assert (Hcount : forall c each,
             (forall kv, count_char c (query_pair kv) = each) ->
             count_char c
               (String.concat "&"
                  (List.map query_pair
                     (List.filter (fun kv => defined (snd kv)) props)))
             = each * n + (if Ascii.eqb "&"%char c then pred n else 0)).
  { intros c each Heach. rewrite (concat_separators c _ each).
    - now rewrite length_map.
    - intros pair Hin. apply in_map_iff in Hin as [kv [<- _]]. apply Heach. }
  split; [|split; [|split; [|split; [|split]]]].
  - rewrite (Hcount "="%char 1); [simpl; lia|].
    intros kv. apply query_pair_separators.
  - rewrite (Hcount "&"%char 0); [simpl; lia|].
    intros kv. now apply query_pair_separators.
  - rewrite (Hcount "?"%char 0); [simpl; lia|].
    intros kv. now apply query_pair_separators.
  - rewrite (Hcount "#"%char 0); [simpl; lia|].
    intros kv. now apply query_pair_separators.
  - rewrite (Hcount "/"%char 0); [simpl; lia|].
    intros kv. now apply query_pair_separators.
  - rewrite (Hcount " "%char 0); [simpl; lia|].
    intros kv. now apply query_pair_separators.
Qed.

Lemma convertParam_separators_witness :
  let params := [("q", VStr "a&b=c"); ("skip", VUndefined); ("path", VStr "x/y?z")] in
  count_char "="%char (_convertParam (VObj params)) = 2
  /\ count_char "&"%char (_convertParam (VObj params)) = 1.
Proof.
  intros params.
  assert (Hnd : NoDup (List.map fst params)).
  { simpl. repeat constructor; simpl; intuition discriminate. }
  split.
  - exact (proj1 (convertParam_separators params Hnd)).
  - exact (proj1 (proj2 (convertParam_separators params Hnd))).
Defined.

Lemma string_length_append (a b : string) :
  String.length (a ++ b) = String.length a + String.length b.
Proof. induction a as [|c rest IH]; simpl; [reflexivity|now rewrite IH]. Qed.

(** X16. The query string of a mapping is empty exactly when every value
    of the mapping is [undefined]; [_getUrl] then returns the url as it
    is, with no [?] appended, and otherwise it returns a longer url. *)
Theorem convertParam_empty_iff (props : list (string * value)) (address : string) :
  NoDup (List.map fst props) ->
  (_convertParam (VObj props) = ""
   <-> Forall (fun kv => snd kv = VUndefined) props)
  /\ (Forall (fun kv => snd kv = VUndefined) props ->
      _getUrl address (Some (_convertParam (VObj props))) = address)
  /\ (~ Forall (fun kv => snd kv = VUndefined) props ->
      String.length address
      < String.length (_getUrl address (Some (_convertParam (VObj props))))).
Proof.
  intros Hnd.
  assert (Hnone : Forall (fun kv => snd kv = VUndefined) props ->
                  List.filter (fun kv => defined (snd kv)) props = []).
  { clear. induction 1 as [|[k v] rest Hv _ IH]; simpl; [reflexivity|].
    simpl in Hv. rewrite Hv. simpl. exact IH. }
  assert (Hsome : ~ Forall (fun kv => snd kv = VUndefined) props ->
                  0 < length (List.filter (fun kv => defined (snd kv)) props)).
  { clear. induction props as [|[k v] rest IH]; intros Hnot.
    - destruct Hnot. constructor.
    - simpl. destruct v; simpl; try lia.
      apply IH. intros Hrest. apply Hnot. now constructor. }
  assert (Hiff : _convertParam (VObj props) = ""
                 <-> Forall (fun kv => snd kv = VUndefined) props).
  { split.
    - intros Hempty.
      assert (Hdec : forall kv : string * value,
                 {snd kv = VUndefined} + {snd kv <> VUndefined}).
      { intros [k v]. simpl. destruct v; (now left) || (right; discriminate). }
      destruct (Forall_dec _ Hdec props) as [Hall|Hnot]; [assumption|].
      exfalso. apply Hsome in Hnot.
      assert (Hequals : count_char "="%char (_convertParam (VObj props))
                        = length (List.filter (fun kv => defined (snd kv)) props)).
      { rewrite convertParam_pairs by assumption.
        rewrite (concat_separators "="%char _ 1).
        - rewrite length_map. simpl. lia.
        - intros pair Hin. apply in_map_iff in Hin as [kv [<- _]].
          apply query_pair_separators. }
      rewrite Hempty in Hequals. simpl in Hequals. lia.
    - intros Hall. rewrite convertParam_pairs, Hnone by assumption. reflexivity. }
  split; [exact Hiff|]. split.
  - intros Hall. now rewrite (proj2 Hiff Hall).
  - intros Hnot. unfold _getUrl.
    destruct (_convertParam (VObj props) =? "") eqn:Hempty.
    + apply String.eqb_eq in Hempty. now apply Hiff in Hempty.
    + simpl. rewrite string_length_append.
      assert (0 < String.length (_convertParam (VObj props))).
      { destruct (_convertParam (VObj props)); [discriminate|simpl; lia]. }
      destruct (ends_with_question address); simpl; lia.
Qed.

Lemma convertParam_empty_iff_witness :
  _getUrl "/api/items"
    (Some (_convertParam (VObj [("page", VUndefined); ("size", VUndefined)])))
  = "/api/items".
Proof.
  apply (proj1 (proj2 (convertParam_empty_iff
                         [("page", VUndefined); ("size", VUndefined)] "/api/items"
                         ltac:(simpl; repeat constructor; simpl; intuition discriminate)))).
  repeat constructor.
Defined.

Lemma ends_with_question_append (a b : string) :
  b <> "" -> ends_with_question (a ++ b) = ends_with_question b.
Proof.
  intros Hb. induction a as [|c rest IH]; simpl; [reflexivity|].
  destruct (rest ++ b)%string eqn:Happ; [|exact IH].
  destruct rest; simpl in Happ; [now destruct Hb|discriminate].
Qed.

(** X17. With a non-empty query string, [_getUrl] adds one [?] unless the
    url ends with one, whatever the url holds before: a url that already
    carries a query string, not ending in [?], gets a second [?] and no
    [&]. *)
Theorem getUrl_question_marks (address query : string) :
  query <> "" ->
  count_char "?"%char (_getUrl address (Some query))
  = count_char "?"%char address + count_char "?"%char query
    + (if ends_with_question address then 0 else 1)
  /\ (forall prefix existing,
         address = (prefix ++ "?" ++ existing)%string ->
         existing <> "" -> ends_with_question existing = false ->
         _getUrl address (Some query) = (address ++ "?" ++ query)%string
         /\ count_char "&"%char (_getUrl address (Some query))
            = count_char "&"%char address + count_char "&"%char query).
Proof.
  intros Hquery. unfold _getUrl. apply String.eqb_neq in Hquery. rewrite Hquery.
  cbn [negb]. split.
  - destruct (ends_with_question address); rewrite !count_char_app;
      cbn [count_char Ascii.eqb]; simpl; lia.
  - intros prefix existing -> Hexisting Hend.
    assert (Hopen : ends_with_question (prefix ++ "?" ++ existing) = false).
    { rewrite ends_with_question_append.
      - change ("?" ++ existing)%string with (String "?" existing).
        simpl. destruct existing; [now destruct Hexisting|exact Hend].
      - discriminate. }
    rewrite Hopen. split; [reflexivity|].
    rewrite !count_char_app. simpl. lia.
Qed.

Lemma getUrl_question_marks_witness :
  _getUrl "/search?lang=en" (Some "q=rocq") = "/search?lang=en?q=rocq"
  /\ count_char "?"%char (_getUrl "/search?lang=en" (Some "q=rocq")) = 2.
Proof.
  split.
  - apply (proj2 (getUrl_question_marks "/search?lang=en" "q=rocq"
                    ltac:(discriminate)) "/search" "lang=en");
      [reflexivity|discriminate|reflexivity].
  - rewrite (proj1 (getUrl_question_marks "/search?lang=en" "q=rocq"
                      ltac:(discriminate))).
    reflexivity.
Defined.

(** ** A rejected request, end to end *)

Section Rejected.

Variable inherited : value -> string -> value.
Variable HTTP_DEFAULT_REQUEST_OPTION : value.
Variable HttpErrorCodeType : list (string * value).
Variable HttpObserveType : list (string * value).
Variable status : value -> Z.
Variable Axios_request : AxiosRequestConfig -> exchange.

Local Abbreviation request' :=
  (request inherited HTTP_DEFAULT_REQUEST_OPTION HttpErrorCodeType
     HttpObserveType status Axios_request).
Local Abbreviation executor := (_request Axios_request).
Local Abbreviation filter' := (request_filter HttpObserveType).
Local Abbreviation map' := (request_map inherited HttpObserveType).
Local Abbreviation catch' := (request_catch HttpErrorCodeType status).
Local Abbreviation classifier := (_handleResponseError HttpErrorCodeType status).
Local Abbreviation Event := (HttpObserveType_Event HttpObserveType).
Local Abbreviation Body := (HttpObserveType_Body HttpObserveType).
Local Abbreviation merged' := (merged HTTP_DEFAULT_REQUEST_OPTION).
Local Abbreviation upstream' := (upstream inherited HttpObserveType Axios_request).

Lemma relay_rejected (x : exchange) (options reason : value) :
  settled x = rejected reason ->
  relay x options
  = List.map next (List.map progress_event (reported x))
    ++ [error (HttpResponseError reason options)].
Proof.
  intros Hsettled. unfold relay. rewrite Hsettled, map_map. f_equal.
  apply map_ext. now intros [e|e].
Qed.

Lemma filter_progress (options : value) (events : list progress) (tail : stream) :
  strict_eq (prop options "observe") Event = false ->
  Rx.filter_stream (filter' options)
    (List.map next (List.map progress_event events) ++ tail)
  = Rx.filter_stream (filter' options) tail.
Proof.
  intros Hmode. induction events as [|p rest IH]; simpl; [reflexivity|].
  unfold request_filter at 1. rewrite Hmode. simpl. now destruct p.
Qed.


End Rejected.


(** ** What is fixed at the call and what at the subscription *)

Section Laziness.

Variable inherited : value -> string -> value.
Variable clear_is_bound : bool.
Variable HTTP_DEFAULT_CONFIG : value.
Variable HTTP_DEFAULT_REQUEST_OPTION : value.
Variable HttpErrorCodeType : list (string * value).
Variable HttpObserveType : list (string * value).
Variable status : value -> Z.
Variable Axios_request : AxiosRequestConfig -> exchange.

Local Abbreviation request' :=
  (request inherited HTTP_DEFAULT_REQUEST_OPTION HttpErrorCodeType
     HttpObserveType status Axios_request).
Local Abbreviation merged' := (merged HTTP_DEFAULT_REQUEST_OPTION).
Local Abbreviation run' := (run clear_is_bound HTTP_DEFAULT_CONFIG HttpErrorCodeType).

(** The headers of the transport call are those of the client at the
    subscription, overridden by the header object of the options merged
    at the call. *)
Lemma request_headers (verb address : string) (options : value)
  (this subscription : HttpClient) :
  _inited this = true -> address <> "" -> In verb valid_methods ->
  exists observable config rest,
    request' verb address options this = Normal observable
    /\ fst (subscribe observable subscription) = AxiosRequest config :: rest
    /\ headers config
       = _getHeader subscription (prop (merged' this options) "header").
Proof.
  intros Hinited Haddress Hverb. eexists. eexists. eexists.
  split; [now apply request_initialized|].
  rewrite subscribe_pipeline.
  unfold subscribe, upstream, Rx.map, Rx.filter, _request, Rx.create.
  apply String.eqb_neq in Haddress. rewrite Haddress.
  apply isValidMethod_In in Hverb. rewrite Hverb.
  unfold merged, spread. simpl.
  split; reflexivity.
Qed.


End Laziness.

